(** * Knowledge-retrieval pipeline: configuration, chunking, embeddings,
      indexing and query orchestration.

    A shallow embedding of the Python modules under
    [task1-Knowledge-Retrieval/src], of [main] of the indexing script and
    of [load_pipeline] of the application, and the properties of them
    that the design document states.

    Conventions.
    - Python [str] is [string]; [len] is [String.length] read in [Z].
    - Python [int] is [Z]; Python [float] is the binary64 [float] of the
      kernel, so [top_score > 0.03] is [0.03 <? top_score] on the same
      double the Python literal denotes.
    - [os.environ] is a [gmap string string]; [os.getenv] is its lookup.
    - The Azure services, the PDF readers and the text splitter are not part
      of this repository: they are taken as parameters of the sections
      that use them.  A call to a service is recorded in a trace, and the
      service may answer differently depending on the calls made before,
      which is how transient failures are represented.
    - A generator is the list of the values it yields. *)

From Stdlib Require Import ZArith List String Ascii Bool Lia PrimFloat.
From Stdlib Require Import DecimalString Sorted.
From Stdlib Require DecimalZ DecimalPos.
From stdpp Require Import base gmap strings.
Import ListNotations.

Set Warnings "-inexact-float".
Open Scope string_scope.
Open Scope Z_scope.
Open Scope list_scope.

(** ** Python built-ins used by the modules *)

Definition len (s : string) : Z := Z.of_nat (String.length s).

(** [str(n)] for an integer. *)
Definition str_int (n : Z) : string :=
  NilZero.string_of_int (Z.to_int n).

(** [sep.join(parts)]. *)
Fixpoint join (sep : string) (parts : list string) : string :=
  match parts with
  | [] => ""
  | [p] => p
  | p :: rest => p +:+ sep +:+ join sep rest
  end.

(** Truth value of an [Optional[str]]: [None] and the empty string are
    false. *)
Definition truthy (v : option string) : bool :=
  match v with
  | Some (String _ _) => true
  | _ => false
  end.

(** [v or d] for an [Optional[str]] [v]. *)
Definition or_else (v : option string) (d : string) : string :=
  if truthy v then default d v else d.


Definition is_space (c : ascii) : bool :=
  let n := nat_of_ascii c in
  ((9 <=? n) && (n <=? 13) || (28 <=? n) && (n <=? 32)
   || (n =? 133) || (n =? 160))%nat.

Fixpoint lstrip (s : string) : string :=
  match s with
  | String c rest => if is_space c then lstrip rest else s
  | EmptyString => EmptyString
  end.

Fixpoint rstrip (s : string) : string :=
  match s with
  | String c rest =>
      match rstrip rest with
      | EmptyString => if is_space c then EmptyString
                       else String c EmptyString
      | kept => String c kept
      end
  | EmptyString => EmptyString
  end.

(** [s.strip()]. *)
Definition strip (s : string) : string := rstrip (lstrip s).

(** [s.find(sub, start)] for [start >= 0]: the lowest index at or after
    [start] where [sub] occurs in [s], or [-1]. *)
Definition find (s sub : string) (start : Z) : Z :=
  match index (Z.to_nat start) sub s with
  | Some i => Z.of_nat i
  | None => -1
  end.

Fixpoint zeros (n : nat) : string :=
  match n with
  | O => ""
  | S k => String "0" (zeros k)
  end.

(** [f"{i:04d}"] for [i >= 0]. *)
Definition format_04d (i : Z) : string :=
  let digits := str_int i in
  zeros (4 - String.length digits) +:+ digits.

(** [enumerate(l, start)]. *)
Fixpoint enumerate {A} (start : Z) (l : list A) : list (Z * A) :=
  match l with
  | [] => []
  | x :: rest => (start, x) :: enumerate (start + 1) rest
  end.

(** [range(start, stop, step)] for [step <> 0]. *)
Definition range (start stop step : Z) : list Z :=
  let count :=
    if 0 <? step then (stop - start + step - 1) / step
    else (start - stop - step - 1) / (- step) in
  map (fun k => start + Z.of_nat k * step) (seq 0 (Z.to_nat count)).

(** [l[i:j]] for [0 <= i]. *)
Definition slice {A} (l : list A) (i j : Z) : list A :=
  firstn (Z.to_nat (j - i)) (skipn (Z.to_nat i) l).

Definition len_list {A} (l : list A) : Z := Z.of_nat (length l).

Definition sum (l : list Z) : Z := fold_left Z.add l 0.

(** * Data model *)

Definition embedding := list float.

(** [pdf_processor.DocumentChunk]. *)
Record DocumentChunk := {
  chunk_id : string;
  content : string;
  page_numbers : list Z;
  section_title : option string;
  chunk_index : Z;
  total_chunks : Z
}.

(** The dictionary [doc] that [index_chunks] uploads. *)
Record IndexDocument := {
  doc_chunk_id : string;
  doc_content : string;
  doc_content_vector : embedding;
  doc_page_numbers : list Z;
  doc_section_title : string;
  doc_chunk_index : Z;
  doc_document_name : string;
  doc_indexed_at : string
}.

(** A result [r] of the search service, with the selected fields and
    ["@search.score"]. *)
Record SearchResult := {
  r_chunk_id : string;
  r_content : string;
  r_page_numbers : list Z;
  r_section_title : option string;
  r_search_score : float
}.

(** The dictionary that [hybrid_search] builds for each result. *)
Record Match := {
  m_chunk_id : string;
  m_content : string;
  m_page_numbers : list Z;
  m_section_title : string;
  m_score : float
}.

(** An entry of [RAGResponse.sources]. *)
Record Source := {
  pages : list Z;
  section : string;
  relevance_score : float
}.

(** [rag_pipeline.RAGResponse]. *)
Record RAGResponse := {
  answer : string;
  sources : list Source;
  confidence : string
}.

(** * Effects: exceptions and calls to the external services *)

Inductive exn :=
| ServiceError (message : string)
| IndexError
| ValueError
| RetryError (last : exn)
| SystemExit (code : Z).

Inductive result (A : Type) :=
| Ok (a : A)
| Raise (e : exn).
Arguments Ok {A} a.
Arguments Raise {A} e.

(** The calls that leave the process. *)
Inductive event :=
| EmbeddingsCreate (model : string) (input : list string)
| Search (search_text : string) (vector : embedding) (top : Z)
| ChatCompletion (model system user : string) (temperature : float)
    (max_completion_tokens : Z)
| UploadDocuments (batch : list IndexDocument)
| CreateOrUpdateIndex (name : string)
| Sleep (seconds : Z).

(** The answer of each service may depend on the calls made so far. *)
Record Services := {
  embeddings_create :
    list event -> string -> list string -> result (list embedding);
  search_documents :
    list event -> string -> embedding -> Z -> result (list SearchResult);
  chat_completions_create :
    list event -> string -> string -> string -> float -> Z ->
    result (option string);
  upload_documents : list event -> list IndexDocument -> result unit;
  index_create_or_update : list event -> string -> result unit;
  utcnow_isoformat : list event -> string
}.

(** A computation reads the trace of calls, may extend it, and returns or
    raises. *)
Definition M (A : Type) : Type := list event -> result A * list event.

Definition ret {A} (a : A) : M A := fun tr => (Ok a, tr).

Definition raise {A} (e : exn) : M A := fun tr => (Raise e, tr).

Definition bind {A B} (c : M A) (k : A -> M B) : M B :=
  fun tr =>
    match c tr with
    | (Ok a, tr') => k a tr'
    | (Raise e, tr') => (Raise e, tr')
    end.

Notation "'let*' x ':=' c 'in' k" := (bind c (fun x => k))
  (at level 10, x name, c at level 100, k at level 200).

(** Issue a call: the service answers from the trace before the call, and
    the call is appended to the trace. *)
Definition call {A} (ev : event) (answer_of : list event -> result A)
  : M A :=
  fun tr => (answer_of tr, tr ++ [ev]).

(** [for x in xs: acc = body(x, acc)]. *)
Fixpoint for_each {X S} (xs : list X) (body : X -> S -> M S) (acc : S)
  : M S :=
  match xs with
  | [] => ret acc
  | x :: rest => let* acc' := body x acc in for_each rest body acc'
  end.

(** Recognisers of the events of a trace. *)
Definition is_chat (ev : event) : bool :=
  match ev with ChatCompletion _ _ _ _ _ => true | _ => false end.

Definition is_embeddings_create (ev : event) : bool :=
  match ev with EmbeddingsCreate _ _ => true | _ => false end.

(** * config.py *)

Module Config.

Definition getenv (environ : gmap string string) (name : string)
  : option string := environ !! name.

Definition required_vars : list (string * string) :=
  [ ("AZURE_OPENAI_ENDPOINT", "Azure OpenAI endpoint URL");
    ("AZURE_OPENAI_EMBEDDING_DEPLOYMENT",
     "Azure OpenAI embedding model deployment name");
    ("AZURE_OPENAI_CHAT_DEPLOYMENT",
     "Azure OpenAI chat model deployment name");
    ("AZURE_SEARCH_ENDPOINT", "Azure AI Search endpoint URL");
    ("AZURE_SEARCH_API_KEY", "Azure AI Search API key") ].

Definition missing_message (var_name description : string) : string :=
  "Missing " +:+ var_name +:+ ": " +:+ description.

(** The body of the [for] loop of [validate_config]. *)
Definition check_var (environ : gmap string string)
    (errors : list string) (v : string * string) : list string :=
  let '(var_name, description) := v in
  if negb (truthy (getenv environ var_name))
  then errors ++ [missing_message var_name description]
  else errors.

Definition validate_config (environ : gmap string string) : list string :=
  fold_left (check_var environ) required_vars [].

(** A variable is set when the environment has an entry for it. *)
Definition is_set (environ : gmap string string) (name : string) : Prop :=
  is_Some (getenv environ name).

(** A variable is usable when it is set to a non-empty value. *)
Definition is_nonempty (environ : gmap string string) (name : string)
  : Prop :=
  exists c s, getenv environ name = Some (String c s).

Definition unusable (environ : gmap string string) (v : string * string)
  : bool := negb (truthy (getenv environ (fst v))).

(** [os.getenv(name, default)]. *)
Definition getenv_default (environ : gmap string string)
    (name default_value : string) : string :=
  default default_value (environ !! name).

(** [c.lower()] for a character below 256. *)
Definition lower_char (c : ascii) : ascii :=
  let n := nat_of_ascii c in
  if ((65 <=? n) && (n <=? 90)
      || (192 <=? n) && (n <=? 222) && negb (n =? 215))%nat
  then ascii_of_nat (n + 32)
  else c.

(** [s.lower()]. *)
Fixpoint lower (s : string) : string :=
  match s with
  | EmptyString => EmptyString
  | String c rest => String (lower_char c) (lower rest)
  end.

Record AzureOpenAIConfig := {
  endpoint : string;
  api_version : string;
  embedding_deployment : string;
  chat_deployment : string;
  use_managed_identity : bool
}.

(** [AzureSearchConfig]; its [endpoint] and [api_key] carry the prefix
    [search_] here. *)
Record AzureSearchConfig := {
  search_endpoint : string;
  search_api_key : string;
  index_name : string
}.

Definition get_openai_config (environ : gmap string string)
  : AzureOpenAIConfig :=
  {| endpoint := getenv_default environ "AZURE_OPENAI_ENDPOINT" "";
     api_version :=
       getenv_default environ "AZURE_OPENAI_API_VERSION" "2024-02-01";
     embedding_deployment :=
       getenv_default environ "AZURE_OPENAI_EMBEDDING_DEPLOYMENT" "";
     chat_deployment :=
       getenv_default environ "AZURE_OPENAI_CHAT_DEPLOYMENT" "";
     use_managed_identity :=
       String.eqb (lower (getenv_default environ "USE_MANAGED_IDENTITY"
                            "true"))
                  "true" |}.

Definition get_search_config (environ : gmap string string)
  : AzureSearchConfig :=
  {| search_endpoint := getenv_default environ "AZURE_SEARCH_ENDPOINT" "";
     search_api_key := getenv_default environ "AZURE_SEARCH_API_KEY" "";
     index_name :=
       getenv_default environ "AZURE_SEARCH_INDEX_NAME"
                      "tmobile-gateway-docs" |}.

End Config.

(** * embeddings.py *)

Module Embeddings.

(** ** The [tenacity] decorator [@retry(stop=..., wait=...)] *)

(** [wait_exponential(multiplier, min, max)], in seconds, after the
    attempt numbered [attempt_number] (from 1) has failed. *)
Definition wait_exponential (multiplier min max attempt_number : Z) : Z :=
  Z.max (Z.max 0 min)
        (Z.min (multiplier * 2 ^ (attempt_number - 1)) max).

(** Run [f]; when it raises and attempts remain, sleep and run it
    again; when none remains, raise [RetryError]. *)
Fixpoint attempt_from {A} (remaining : nat) (attempt_number : Z)
    (wait : Z -> Z) (f : M A) : M A :=
  fun tr =>
    match f tr with
    | (Ok a, tr') => (Ok a, tr')
    | (Raise e, tr') =>
        match remaining with
        | O => (Raise (RetryError e), tr')
        | S fewer =>
            attempt_from fewer (attempt_number + 1) wait f
                         (tr' ++ [Sleep (wait attempt_number)])
        end
    end.

(** [retry(stop=stop_after_attempt(n), wait=wait)]. *)
Definition retry {A} (stop_after_attempt : Z) (wait : Z -> Z) (f : M A)
  : M A :=
  attempt_from (Z.to_nat (stop_after_attempt - 1)) 1 wait f.

Section Client.

Variable svc : Services.
(** [self.deployment]. *)
Variable deployment : string.

(** [self.client.embeddings.create(input=..., model=self.deployment)];
    a single text is sent as a one-element input. *)
Definition create (input : list string) : M (list embedding) :=
  call (EmbeddingsCreate deployment input)
       (fun tr => embeddings_create svc tr deployment input).

(** The undecorated body of [get_embedding]. *)
Definition get_embedding_body (text : string) : M embedding :=
  let* data := create [text] in
  match data with
  | first :: _ => ret first
  | [] => raise IndexError
  end.

Definition get_embedding (text : string) : M embedding :=
  retry 3 (wait_exponential 1 2 10) (get_embedding_body text).

Definition get_embeddings_batch (texts : list string) (batch_size : Z)
  : M (list embedding) :=
  if batch_size =? 0 then raise ValueError
  else
    for_each (range 0 (len_list texts) batch_size)
      (fun i all_embeddings =>
         let batch := slice texts i (i + batch_size) in
         let* batch_embeddings := create batch in
         ret (all_embeddings ++ batch_embeddings))
      [].

End Client.

End Embeddings.

(** * pdf_processor.py *)

Module PdfProcessor.

Definition newline : string := String "010"%char "".

Definition paragraph_break : string := newline +:+ newline.

(** What [page.extract_text()] gives for each page of the file, for each
    of the two readers. *)
Record Pdf := {
  pypdf_pages : list (option string);
  pdfplumber_pages : list (option string)
}.

Record PDFProcessor := {
  chunk_size : Z;
  chunk_overlap : Z
}.

Definition separators : list string :=
  [paragraph_break; newline; ". "; " "; ""].

(** The loop shared by [extract_text_pypdf] and
    [extract_text_pdfplumber]. *)
Definition extract_text (reader_pages : list (option string))
  : list (Z * string) :=
  map (fun '(i, text) => (i + 1, strip (or_else text "")))
      (enumerate 0 reader_pages).

Definition extract_text_pypdf (pdf : Pdf) : list (Z * string) :=
  extract_text (pypdf_pages pdf).

Definition extract_text_pdfplumber (pdf : Pdf) : list (Z * string) :=
  extract_text (pdfplumber_pages pdf).

Definition extract_with_fallback (pdf : Pdf) : list (Z * string) :=
  let pages := extract_text_pypdf pdf in
  let total_chars := sum (map (fun '(_, text) => len text) pages) in
  if total_chars <? 1000 then extract_text_pdfplumber pdf else pages.

(** One iteration of the loop that builds [full_text] and
    [page_boundaries]; a boundary is [(start_char, end_char, page_num)]. *)
Definition add_page (acc : string * list (Z * Z * Z)) (page : Z * string)
  : string * list (Z * Z * Z) :=
  let '(full_text, page_boundaries) := acc in
  let '(page_num, text) := page in
  match text with
  | EmptyString => acc
  | _ =>
      let start := len full_text in
      let full_text' := full_text +:+ text +:+ paragraph_break in
      let end_ := len full_text' in
      (full_text', page_boundaries ++ [(start, end_, page_num)])
  end.

Definition combine_pages (pages : list (Z * string))
  : string * list (Z * Z * Z) :=
  fold_left add_page pages ("", []).

(** [chunk_start], after the fallback to [char_pos]. *)
Definition locate (full_text chunk_text : string) (char_pos : Z) : Z :=
  let chunk_start := find full_text chunk_text char_pos in
  if chunk_start =? -1 then char_pos else chunk_start.

Definition spans (chunk_start chunk_end : Z) (boundary : Z * Z * Z)
  : bool :=
  let '(start, end_, _) := boundary in
  (chunk_start <? end_) && (chunk_end >? start).

(** The inner loop: the pages whose range the chunk intersects. *)
Definition chunk_pages (page_boundaries : list (Z * Z * Z))
    (chunk_start chunk_end : Z) : list Z :=
  map (fun '(_, _, page_num) => page_num)
      (List.filter (spans chunk_start chunk_end) page_boundaries).

(** [chunk_pages or [1]]. *)
Definition or_page_one (pages : list Z) : list Z :=
  match pages with
  | [] => [1]
  | _ => pages
  end.

(** The loop over [enumerate(chunks)], from index [i] and cursor
    [char_pos]. *)
Fixpoint emit (full_text : string) (page_boundaries : list (Z * Z * Z))
    (total : Z) (i char_pos : Z) (chunks : list string)
  : list DocumentChunk :=
  match chunks with
  | [] => []
  | chunk_text :: rest =>
      let chunk_start := locate full_text chunk_text char_pos in
      let chunk_end := chunk_start + len chunk_text in
      {| chunk_id := "chunk_" +:+ format_04d i;
         content := chunk_text;
         page_numbers :=
           or_page_one (chunk_pages page_boundaries chunk_start chunk_end);
         section_title := None;
         chunk_index := i;
         total_chunks := total |}
      :: emit full_text page_boundaries total (i + 1) (chunk_start + 1)
              rest
  end.

(** The half-open spans [(chunk_start, chunk_end)] at which the loop
    locates the chunks, in order. *)
Fixpoint located_spans (full_text : string) (char_pos : Z)
    (chunks : list string) : list (Z * Z) :=
  match chunks with
  | [] => []
  | chunk_text :: rest =>
      let chunk_start := locate full_text chunk_text char_pos in
      (chunk_start, chunk_start + len chunk_text)
      :: located_spans full_text (chunk_start + 1) rest
  end.

Section Chunking.

(** [RecursiveCharacterTextSplitter(chunk_size, chunk_overlap,
    length_function=len, separators).split_text], of the
    [langchain_text_splitters] library. *)
Variable split_text : Z -> Z -> list string -> string -> list string.

Definition text_splitter (self : PDFProcessor) : string -> list string :=
  split_text (chunk_size self) (chunk_overlap self) separators.

(** [chunk_document], from the pages already extracted. *)
Definition chunk_pages_of (self : PDFProcessor)
    (pages : list (Z * string)) : list DocumentChunk :=
  let '(full_text, page_boundaries) := combine_pages pages in
  let chunks := text_splitter self full_text in
  let total_chunks := len_list chunks in
  emit full_text page_boundaries total_chunks 0 0 chunks.

Definition chunk_document (self : PDFProcessor) (pdf : Pdf)
  : list DocumentChunk :=
  chunk_pages_of self (extract_with_fallback pdf).

End Chunking.

End PdfProcessor.

(** * search_client.py *)

Module SearchClient.

(** The dictionary [doc] built for one [(chunk, embedding)] pair. *)
Definition make_doc (document_name timestamp : string)
    (pair : DocumentChunk * embedding) : IndexDocument :=
  let '(chunk, embedding) := pair in
  {| doc_chunk_id := chunk_id chunk;
     doc_content := content chunk;
     doc_content_vector := embedding;
     doc_page_numbers := page_numbers chunk;
     doc_section_title := or_else (section_title chunk) "";
     doc_chunk_index := chunk_index chunk;
     doc_document_name := document_name;
     doc_indexed_at := timestamp |}.

(** The first loop of [index_chunks], over [zip(chunks, embeddings)]. *)
Definition build_documents (chunks : list DocumentChunk)
    (embeddings : list embedding) (document_name timestamp : string)
  : list IndexDocument :=
  map (make_doc document_name timestamp) (combine chunks embeddings).

(** The dictionary built for one search result. *)
Definition make_match (r : SearchResult) : Match :=
  {| m_chunk_id := r_chunk_id r;
     m_content := r_content r;
     m_page_numbers := r_page_numbers r;
     m_section_title := default "" (r_section_title r);
     m_score := r_search_score r |}.

Section Service.

Variable svc : Services.

Definition index_chunks (chunks : list DocumentChunk)
    (embeddings : list embedding) (document_name : string) : M unit :=
  fun tr =>
    let timestamp := utcnow_isoformat svc tr in
    let documents :=
      build_documents chunks embeddings document_name timestamp in
    let batch_size := 100 in
    for_each (range 0 (len_list documents) batch_size)
      (fun i _ =>
         let batch := slice documents i (i + batch_size) in
         call (UploadDocuments batch)
              (fun tr' => upload_documents svc tr' batch))
      tt tr.

(** [create_or_update_index] of a [SearchService] whose [index_name] is
    [name].  The schema that [get_index_schema] builds varies with the
    name only, which stands for it in the call. *)
Definition create_or_update_index (name : string) : M unit :=
  call (CreateOrUpdateIndex name)
       (fun tr => index_create_or_update svc tr name).

Definition hybrid_search (query : string) (query_embedding : embedding)
    (top_k : Z) : M (list Match) :=
  let* results :=
    call (Search query query_embedding top_k)
         (fun tr => search_documents svc tr query query_embedding top_k)
  in
  ret (map make_match results).

End Service.

End SearchClient.

(** * rag_pipeline.py *)

Module RagPipeline.

Import PdfProcessor.

Definition double_quote : string := String "034"%char "".

(** [SYSTEM_PROMPT.format(context=context)]. *)
Definition SYSTEM_PROMPT_format (context : string) : string :=
  "You are a helpful T-Mobile 5G Gateway support assistant.
Your role is to answer troubleshooting questions about the KVD21 5G Gateway device
using ONLY the information provided in the context below.

IMPORTANT GUIDELINES:
1. Only answer based on the provided context. If the answer is not in the context, say so clearly.
2. Be specific and provide step-by-step instructions when applicable.
3. Always cite the page number(s) where you found the information (e.g., "
  +:+ double_quote +:+ "According to page 12..." +:+ double_quote
  +:+ ").
4. If the question is unclear, ask for clarification.
5. Format your response clearly with numbered steps for procedures.
6. If multiple solutions exist, present them in order of likelihood to resolve the issue.

CONTEXT FROM DOCUMENTATION:
" +:+ context +:+ "

Remember: Only use information from the context above. Do not make up information or provide general advice not grounded in the documentation.".

Definition NOT_FOUND_ANSWER : string :=
  "I couldn't find relevant information in the documentation to answer your question. Please try rephrasing or ask about a different topic related to the T-Mobile 5G Gateway.".

(** One element of [context_parts]. *)
Definition context_part (numbered : Z * Match) : string :=
  let '(i, chunk) := numbered in
  let pages := join ", " (map str_int (m_page_numbers chunk)) in
  let section := m_section_title chunk in
  let section_str :=
    match section with
    | EmptyString => ""
    | _ => " (" +:+ section +:+ ")"
    end in
  "[Source " +:+ str_int i +:+ " - Page " +:+ pages +:+ section_str
  +:+ "]" +:+ newline +:+ m_content chunk +:+ newline.

Definition format_context (chunks : list Match) : string :=
  join (newline +:+ "---" +:+ newline)
       (map context_part (enumerate 1 chunks)).

(** One element of [sources]. *)
Definition make_source (chunk : Match) : Source :=
  {| pages := m_page_numbers chunk;
     section := m_section_title chunk;
     relevance_score := m_score chunk |}.

(** The confidence heuristic on [top_score]. *)
Definition confidence_of (top_score : float) : string :=
  if (0.03 <? top_score)%float then "high"
  else if (0.02 <? top_score)%float then "medium"
  else "low".

Section Pipeline.

Variable svc : Services.
(** [config.embedding_deployment], [self.chat_deployment] and
    [self.chunking_config.top_k]. *)
Variable embedding_deployment : string.
Variable chat_deployment : string.
Variable top_k : Z.

Definition retrieve (query : string) : M (list Match) :=
  let* query_embedding :=
    Embeddings.get_embedding svc embedding_deployment query in
  SearchClient.hybrid_search svc query query_embedding top_k.

Definition generate (query context : string) : M string :=
  let system := SYSTEM_PROMPT_format context in
  let* message_content :=
    call (ChatCompletion chat_deployment system query 0.3%float 1000)
         (fun tr =>
            chat_completions_create svc tr chat_deployment system query
                                    0.3%float 1000)
  in
  ret (or_else message_content "").

Definition query (user_query : string) : M RAGResponse :=
  let* chunks := retrieve user_query in
  match chunks with
  | [] =>
      ret {| answer := NOT_FOUND_ANSWER;
             sources := [];
             confidence := "low" |}
  | first :: _ =>
      let context := format_context chunks in
      let* answer := generate user_query context in
      let sources := map make_source chunks in
      let top_score := m_score first in
      ret {| answer := answer;
             sources := sources;
             confidence := confidence_of top_score |}
  end.

End Pipeline.

End RagPipeline.

(** * scripts/index_document.py *)

Module IndexDocument.

Section Steps.

Variable svc : Services.
(** The deployment of [EmbeddingsClient()]. *)
Variable deployment : string.
(** The splitter of the [langchain_text_splitters] library. *)
Variable split_text : Z -> Z -> list string -> string -> list string.

(** [PDFProcessor(chunk_size=1000, chunk_overlap=200)]. *)
Definition processor : PdfProcessor.PDFProcessor :=
  {| PdfProcessor.chunk_size := 1000; PdfProcessor.chunk_overlap := 200 |}.

Definition DOCUMENT_NAME : string := "T-Mobile 5G Gateway User Guide".

(** Steps [2/4] to [4/4] of [main]: chunk the file, embed the contents
    with the default batch size, index the chunks with their embeddings.
    The progress messages are left out; the chunks are returned. *)
Definition index_steps (pdf : PdfProcessor.Pdf) : M (list DocumentChunk) :=
  let chunks := PdfProcessor.chunk_document split_text processor pdf in
  let texts := map content chunks in
  let* embeddings :=
    Embeddings.get_embeddings_batch svc deployment texts 16 in
  let* _ := SearchClient.index_chunks svc chunks embeddings DOCUMENT_NAME in
  ret chunks.

End Steps.

(** [sys.exit(code)]. *)
Definition sys_exit {A} (code : Z) : M A := raise (SystemExit code).

Section Main.

Variable svc : Services.
Variable split_text : Z -> Z -> list string -> string -> list string.
(** [os.environ]. *)
Variable environ : gmap string string.

(** [main]; [file] is the file at [pdf_path], when there is one.
    [EmbeddingsClient()] and [SearchService()] read the configuration and
    keep [config.embedding_deployment] and [config.index_name]; building
    the clients of the Azure libraries sends nothing.  The messages
    printed are left out. *)
Definition main (file : option PdfProcessor.Pdf) : M unit :=
  let errors := Config.validate_config environ in
  match errors with
  | _ :: _ => sys_exit 1
  | [] =>
      match file with
      | None => sys_exit 1
      | Some pdf_path =>
          let deployment :=
            Config.embedding_deployment (Config.get_openai_config environ)
          in
          let index_name :=
            Config.index_name (Config.get_search_config environ) in
          let* _ := SearchClient.create_or_update_index svc index_name in
          let* _ := index_steps svc deployment split_text pdf_path in
          ret tt
      end
  end.

End Main.

End IndexDocument.

(** * app.py *)

Module App.

(** The exceptions that [except Exception] catches: all but those that
    derive from [BaseException] only. *)
Definition is_Exception (e : exn) : bool :=
  match e with
  | SystemExit _ => false
  | _ => true
  end.

Section LoadPipeline.

(** The class [RAGPipeline] and its constructor [RAGPipeline()], which
    reads the configuration and builds the clients of the pipeline. *)
Variable RAGPipeline : Type.
Variable RAGPipeline_init : M RAGPipeline.
(** [os.environ]. *)
Variable environ : gmap string string.

(** [load_pipeline]; the messages [st.error] and [st.info] show on the
    page are left out. *)
Definition load_pipeline : M (option RAGPipeline) :=
  let errors := Config.validate_config environ in
  match errors with
  | _ :: _ => ret None
  | [] =>
      fun tr =>
        match RAGPipeline_init tr with
        | (Ok pipeline, tr') => (Ok (Some pipeline), tr')
        | (Raise e, tr') =>
            if is_Exception e then (Ok None, tr') else (Raise e, tr')
        end
  end.

End LoadPipeline.

End App.

(** * Further vocabulary and examples *)

Module Reading.

(** The number a string of decimal digits denotes, leading zeros
    allowed. *)
Definition digits_value (digits : string) : option Z :=
  option_map Z.of_uint (NilEmpty.uint_of_string digits).

(** The index written in a chunk identifier. *)
Definition read_chunk_id (chunk_id : string) : option Z :=
  match chunk_id with
  | String "c" (String "h" (String "u" (String "n" (String "k"
      (String "_" digits))))) => digits_value digits
  | _ => None
  end.

(** The ranges of a boundary table follow one another from [start] to
    [stop], none of them empty. *)
Fixpoint tiles (start : Z) (page_boundaries : list (Z * Z * Z)) (stop : Z)
  : Prop :=
  match page_boundaries with
  | [] => start = stop
  | (page_start, page_end, _) :: rest =>
      page_start = start /\ page_start < page_end
      /\ tiles page_end rest stop
  end.

(** The text is empty or made of white space only. *)
Fixpoint all_space (s : string) : bool :=
  match s with
  | EmptyString => true
  | String c rest => is_space c && all_space rest
  end.

(** A page for which the reader gives no text, or white space only. *)
Definition blank_page (text : option string) : bool :=
  match text with
  | None => true
  | Some s => all_space s
  end.

(** An attempt of [get_embedding] fails when the provider raises or
    returns no data. *)
Definition attempt_fails (svc : Services) (deployment : string)
    (tr : list event) (text : string) : Prop :=
  (exists e, embeddings_create svc tr deployment [text] = Raise e)
  \/ embeddings_create svc tr deployment [text] = Ok [].

(** The input of a call to the embedding provider. *)
Definition create_event (deployment : string) (input : list string)
  : event := EmbeddingsCreate deployment input.

(** The source entry built for a search result. *)
Definition source_of (r : SearchResult) : Source :=
  {| pages := r_page_numbers r;
     section := default "" (r_section_title r);
     relevance_score := r_search_score r |}.

(** A file whose pages carry no text: one without text layer, one with
    white space only. *)
Definition blank_pdf : PdfProcessor.Pdf :=
  {| PdfProcessor.pypdf_pages := [None; Some "  "];
     PdfProcessor.pdfplumber_pages := [None; Some "  "] |}.

(** An environment with the five required variables set. *)
Definition complete_environ : gmap string string :=
  <["AZURE_OPENAI_ENDPOINT" := "https://example.openai.azure.com"]>
  (<["AZURE_OPENAI_EMBEDDING_DEPLOYMENT" := "text-embedding-ada-002"]>
  (<["AZURE_OPENAI_CHAT_DEPLOYMENT" := "gpt-4o"]>
  (<["AZURE_SEARCH_ENDPOINT" := "https://example.search.windows.net"]>
  (<["AZURE_SEARCH_API_KEY" := "secret"]> ∅)))).

End Reading.

(** * Vocabulary of the statements *)

Module Statements.

Import Config.

(** The entry of [errors] for a required variable. *)
Definition message_of (v : string * string) : string :=
  missing_message (fst v) (snd v).

(** Number of calls to the embedding provider in a trace. *)
Definition count_creates (tr : list event) : nat :=
  length (List.filter is_embeddings_create tr).

(** What [get_embedding] may add to the trace: calls to the provider and
    sleeps of 2 to 10 seconds. *)
Definition retry_event (ev : event) : Prop :=
  match ev with
  | EmbeddingsCreate _ _ => True
  | Sleep seconds => 2 <= seconds <= 10
  | _ => False
  end.

(** [bool(s)] for a string. *)
Definition nonempty (s : string) : bool :=
  match s with EmptyString => false | _ => true end.

(** The page number of an entry of [page_boundaries]. *)
Definition boundary_page (boundary : Z * Z * Z) : Z :=
  let '(_, _, page_num) := boundary in page_num.

(** The pages that the loop of [chunk_document] does not skip. *)
Definition has_text (page : Z * string) : bool := nonempty (snd page).

(** The event is not a call to the generation service. *)
Definition not_chat (ev : event) : Prop := is_chat ev = false.

(** The computation keeps the calls made so far and may add calls after
    them. *)
Definition appends {A} (c : M A) : Prop :=
  forall tr, exists later, snd (c tr) = tr ++ later.

End Statements.

(** * Concrete environments, services and documents *)

Module Examples.

Import PdfProcessor Statements.

(** An environment in which every required variable is set, one of them
    to the empty string (a line [AZURE_SEARCH_API_KEY=] of [.env]). *)
Definition blank_key_environ : gmap string string :=
  <["AZURE_OPENAI_ENDPOINT" := "https://example.openai.azure.com"]>
  (<["AZURE_OPENAI_EMBEDDING_DEPLOYMENT" := "text-embedding-ada-002"]>
  (<["AZURE_OPENAI_CHAT_DEPLOYMENT" := "gpt-4o"]>
  (<["AZURE_SEARCH_ENDPOINT" := "https://example.search.windows.net"]>
  (<["AZURE_SEARCH_API_KEY" := ""]> ∅)))).

(** The embedding the stand-in provider gives to a text: as many zeros as
    the text has characters. *)
Definition unit_embedding (text : string) : embedding :=
  repeat 0%float (String.length text).

(** A provider whose first [failures] calls fail with a rate-limit error and
    whose later calls succeed; the other services always answer. *)
Definition flaky_services (failures : nat) : Services :=
  {| embeddings_create := fun tr _ input =>
       if (count_creates tr <? failures)%nat
       then Raise (ServiceError "429 Too Many Requests")
       else Ok (map unit_embedding input);
     search_documents := fun _ _ _ _ => Ok [];
     chat_completions_create := fun _ _ _ _ _ _ => Ok (Some "answer");
     upload_documents := fun _ _ => Ok tt;
     index_create_or_update := fun _ _ => Ok tt;
     utcnow_isoformat := fun _ => "2024-01-01T00:00:00+00:00" |}.

(** Services that always answer. *)
Definition steady_services : Services := flaky_services 0.

(** Cut [s] at every paragraph break; [current] holds, reversed, the
    characters read since the last break. *)
Fixpoint split_paragraphs (s : string) (current : list ascii)
  : list string :=
  match s with
  | EmptyString => [string_of_list_ascii (rev current)]
  | String c1 rest1 =>
      match rest1 with
      | String c2 rest2 =>
          if (Ascii.eqb c1 "010" && Ascii.eqb c2 "010")%bool
          then string_of_list_ascii (rev current)
               :: split_paragraphs rest2 []
          else split_paragraphs rest1 (c1 :: current)
      | EmptyString => [string_of_list_ascii (rev (c1 :: current))]
      end
  end.

(** A splitter that cuts at paragraph breaks and strips every piece.  On
    the buffer of [two_page_pdf] below, with [chunk_size=8] and
    [chunk_overlap=0], these are the segments that
    [RecursiveCharacterTextSplitter] returns: each of the two paragraphs
    fits in 8 characters and the two together do not. *)
Definition paragraph_splitter (chunk_size chunk_overlap : Z)
    (separators : list string) (text : string) : list string :=
  List.filter nonempty (map strip (split_paragraphs text [])).

(** A file with two pages; the text of the second page also ends the
    first. *)
Definition two_page_pdf : Pdf :=
  {| pypdf_pages := [Some "foo bar"; Some "bar"];
     pdfplumber_pages := [Some "foo bar"; Some "bar"] |}.

(** [PDFProcessor(chunk_size=8, chunk_overlap=0)]. *)
Definition small_processor : PDFProcessor :=
  {| chunk_size := 8; chunk_overlap := 0 |}.

(** Services whose search returns one match with the given score. *)
Definition scoring_services (score : float) : Services :=
  {| embeddings_create := fun _ _ input => Ok (map unit_embedding input);
     search_documents := fun _ _ _ _ =>
       Ok [ {| r_chunk_id := "chunk_0003";
               r_content := "Hold the reset button for ten seconds.";
               r_page_numbers := [12; 13];
               r_section_title := Some "";
               r_search_score := score |} ];
     chat_completions_create := fun _ _ _ _ _ _ =>
       Ok (Some "According to page 12, hold the reset button.");
     upload_documents := fun _ _ => Ok tt;
     index_create_or_update := fun _ _ => Ok tt;
     utcnow_isoformat := fun _ => "2024-01-01T00:00:00+00:00" |}.

(** The match built from the result of [scoring_services]. *)
Definition top_match (score : float) : Match :=
  {| m_chunk_id := "chunk_0003";
     m_content := "Hold the reset button for ten seconds.";
     m_page_numbers := [12; 13];
     m_section_title := "";
     m_score := score |}.

End Examples.

(** * Properties *)

(** ** Generic facts about the built-ins and the effect monad *)

Lemma filter_nil_iff {A} (f : A -> bool) (l : list A) :
  List.filter f l = [] <-> Forall (fun x => f x = false) l.
Proof.
  induction l as [|x l IH]; simpl.
  - split; [constructor | reflexivity].
  - destruct (f x) eqn:Hx.
    + split; [discriminate | intros H; inversion H; congruence].
    + rewrite IH. split; [intros H; constructor; assumption
                         | intros H; inversion H; assumption].
Qed.

Lemma truthy_true_iff (v : option string) :
  truthy v = true <-> exists c s, v = Some (String c s).
Proof.
  destruct v as [[|c s]|]; simpl; split; try discriminate.
  - intros (c & s & H); discriminate.
  - intros _; eauto.
  - reflexivity.
  - intros (c & s & H); discriminate.
Qed.

(** ** config.py *)

Module ConfigProofs.

Import Config Statements Examples.

Lemma fold_check_var environ (vars : list (string * string)) errors :
  fold_left (check_var environ) vars errors
  = errors ++ map message_of (List.filter (unusable environ) vars).
Proof.
  revert errors.
  induction vars as [|[var_name description] vars IH]; intros errors.
  - simpl. now rewrite app_nil_r.
  - simpl. rewrite IH. unfold unusable at 2. simpl.
    destruct (negb (truthy (getenv environ var_name))); simpl.
    + now rewrite <- app_assoc.
    + reflexivity.
Qed.

(** C9, as stated, fails: every required variable is set in
    [blank_key_environ], none is absent, and yet [validate_config]
    returns a non-empty list with an entry for the variable whose value
    is the empty string. *)
Lemma validate_config_blank_value :
  Forall (fun v => is_set blank_key_environ (fst v)) required_vars
  /\ validate_config blank_key_environ
     = ["Missing AZURE_SEARCH_API_KEY: Azure AI Search API key"]
  /\ ~ (forall environ,
          validate_config environ = []
          <-> Forall (fun v => is_set environ (fst v)) required_vars).
Proof.
  assert (Hset : Forall (fun v => is_set blank_key_environ (fst v))
                        required_vars).
  { unfold required_vars, is_set, getenv.
    repeat constructor; vm_compute; eexists; reflexivity. }
  assert (Hval : validate_config blank_key_environ
                 = ["Missing AZURE_SEARCH_API_KEY: Azure AI Search API key"]).
  { vm_compute. reflexivity. }
  split; [exact Hset|]. split; [exact Hval|].
  intros H. apply H in Hset. rewrite Hval in Hset. discriminate.
Qed.

(** The list [validate_config] returns holds, in the order of the required
    variables, one entry for every required variable that is absent or
    set to the empty string, and it is empty exactly when every required
    variable is set to a non-empty value. *)
Lemma validate_config_reports_all (environ : gmap string string) :
  validate_config environ
  = map message_of (List.filter (unusable environ) required_vars)
  /\ (validate_config environ = []
      <-> Forall (fun v => is_nonempty environ (fst v)) required_vars).
Proof.
  assert (Heq : validate_config environ
                = map message_of
                      (List.filter (unusable environ) required_vars)).
  { unfold validate_config. now rewrite fold_check_var. }
  split; [exact Heq|].
  rewrite Heq. split.
  - intros Hnil. apply map_eq_nil in Hnil.
    apply filter_nil_iff in Hnil.
    eapply List.Forall_impl; [|exact Hnil].
    intros v Hv. unfold unusable in Hv.
    apply negb_false_iff in Hv. now apply truthy_true_iff in Hv.
  - intros Hall.
    assert (Hf : List.filter (unusable environ) required_vars = []).
    { apply filter_nil_iff. eapply List.Forall_impl; [|exact Hall].
      intros v Hv. unfold unusable. apply negb_false_iff.
      now apply truthy_true_iff. }
    now rewrite Hf.
Qed.

End ConfigProofs.

(** ** Slices and ranges *)

Lemma firstn_plus {A} (a b : nat) (l : list A) :
  firstn (a + b) l = firstn a l ++ firstn b (skipn a l).
Proof.
  revert l. induction a as [|a IH]; intros l; simpl.
  - reflexivity.
  - destruct l as [|x l]; simpl.
    + now rewrite firstn_nil.
    + now rewrite IH.
Qed.

(** [range(0, n, step)] for a positive step is [0, step, 2*step, ...],
    with as many elements as steps are needed to reach [n]. *)
Lemma range_positive_step (n step : Z) :
  0 < step ->
  range 0 n step
  = map (fun k => Z.of_nat k * step)
        (seq 0 (Z.to_nat ((n + step - 1) / step))).
Proof.
  intros Hstep. unfold range.
  destruct (0 <? step) eqn:Hlt; [|apply Z.ltb_ge in Hlt; lia].
  replace (n - 0 + step - 1) with (n + step - 1) by lia.
  apply map_ext. intros k. lia.
Qed.

Lemma range_steps_cover (n step : Z) :
  0 <= n -> 0 < step -> n <= (n + step - 1) / step * step.
Proof.
  intros Hn Hstep.
  pose proof (Z.div_mod (n + step - 1) step ltac:(lia)) as Hdm.
  pose proof (Z.mod_pos_bound (n + step - 1) step Hstep) as Hmod.
  lia.
Qed.

Lemma slice_batch {A} (l : list A) (k : nat) (step : Z) :
  0 < step ->
  slice l (Z.of_nat k * step) (Z.of_nat k * step + step)
  = firstn (Z.to_nat step) (skipn (k * Z.to_nat step) l).
Proof.
  intros Hstep. unfold slice. f_equal; [f_equal; lia|].
  f_equal. lia.
Qed.

Lemma Forall2_nth_error_left {A B} (R : A -> B -> Prop) (l : list A)
    (l' : list B) :
  Forall2 R l l' ->
  forall (i : nat) x,
    nth_error l i = Some x -> exists y, nth_error l' i = Some y /\ R x y.
Proof.
  induction 1 as [|x0 y0 l l' Hxy Hrest IH]; intros i x Hi.
  - destruct i; discriminate.
  - destruct i as [|i]; simpl in Hi |- *.
    + injection Hi as <-. eauto.
    + apply IH. exact Hi.
Qed.

(** ** embeddings.py *)

Module EmbeddingsProofs.

Import Embeddings Statements Examples.

Section Batch.

Variable svc : Services.
Variable deployment : string.

(** [embeds text e]: [e] is an embedding of [text]. *)
Variable embeds : string -> embedding -> Prop.

(** Each call to the provider returns one embedding per input, in the
    order of the input. *)
Hypothesis provider_order_preserving :
  forall tr input,
    exists data,
      embeddings_create svc tr deployment input = Ok data
      /\ Forall2 embeds input data.

Variable texts : list string.
Variable batch_size : Z.
Hypothesis batch_size_positive : 0 < batch_size.

Let body := fun (i : Z) (all_embeddings : list embedding) =>
  let batch := slice texts i (i + batch_size) in
  let* batch_embeddings := create svc deployment batch in
  ret (all_embeddings ++ batch_embeddings).

(** The loop over the sub-batches numbered [j], ..., [j + m - 1] extends
    the accumulator with embeddings of the texts of these sub-batches. *)
Lemma batch_loop (m j : nat) (acc : list embedding) (tr : list event) :
  exists data tr',
    for_each (map (fun k => Z.of_nat k * batch_size) (seq j m)) body acc tr
    = (Ok (acc ++ data), tr')
    /\ Forall2 embeds
         (firstn (m * Z.to_nat batch_size)
                 (skipn (j * Z.to_nat batch_size) texts))
         data.
Proof.
  revert j acc tr. induction m as [|m IH]; intros j acc tr.
  - exists [], tr. simpl. rewrite app_nil_r. split; [reflexivity|constructor].
  - simpl seq. simpl map. simpl for_each.
    unfold bind at 1. unfold body at 1. unfold bind at 1.
    unfold create, call.
    destruct (provider_order_preserving tr
                (slice texts (Z.of_nat j * batch_size)
                       (Z.of_nat j * batch_size + batch_size)))
      as (d1 & Hd1 & Hf1).
    rewrite Hd1. unfold ret at 1.
    destruct (IH (S j) (acc ++ d1)
                 (tr ++ [EmbeddingsCreate deployment
                           (slice texts (Z.of_nat j * batch_size)
                              (Z.of_nat j * batch_size + batch_size))]))
      as (d2 & tr' & Hrun & Hf2).
    exists (d1 ++ d2), tr'. split.
    + fold body. rewrite Hrun. now rewrite <- app_assoc.
    + rewrite slice_batch in Hf1 by assumption.
      replace (S m * Z.to_nat batch_size)%nat
        with (Z.to_nat batch_size + m * Z.to_nat batch_size)%nat by lia.
      rewrite firstn_plus. apply Forall2_app; [exact Hf1|].
      rewrite skipn_skipn.
      replace (Z.to_nat batch_size + j * Z.to_nat batch_size)%nat
        with (S j * Z.to_nat batch_size)%nat by lia.
      exact Hf2.
Qed.

(** C7: for a positive batch size and a provider that answers every call
    with one embedding per input in input order, [get_embeddings_batch]
    returns a list with one embedding per text in which the embedding at
    each position is an embedding of the text at that position. *)
Theorem get_embeddings_batch_positional (tr : list event) :
  exists result tr',
    get_embeddings_batch svc deployment texts batch_size tr
    = (Ok result, tr')
    /\ length result = length texts
    /\ Forall2 embeds texts result
    /\ (forall (i : nat) text,
          nth_error texts i = Some text ->
          exists e, nth_error result i = Some e /\ embeds text e).
Proof.
  unfold get_embeddings_batch.
  destruct (batch_size =? 0) eqn:Hz; [apply Z.eqb_eq in Hz; lia|].
  rewrite range_positive_step by assumption.
  destruct (batch_loop
              (Z.to_nat ((len_list texts + batch_size - 1) / batch_size))
              0 [] tr) as (data & tr' & Hrun & Hall).
  exists data, tr'. fold body. rewrite Hrun. simpl app.
  simpl skipn in Hall.
  rewrite firstn_all2 in Hall.
  2:{ pose proof (range_steps_cover (len_list texts) batch_size
                    ltac:(unfold len_list; lia) batch_size_positive) as Hc.
      unfold len_list in *.
      assert (Hq : 0 <= (Z.of_nat (length texts) + batch_size - 1)
                        / batch_size)
        by (apply Z.div_pos; lia).
      rewrite <- Z2Nat.inj_mul by lia.
      apply Nat2Z.inj_le. rewrite Z2Nat.id by lia. exact Hc. }
  split; [reflexivity|]. split; [|split; [exact Hall|]].
  - symmetry. eapply Forall2_length. exact Hall.
  - apply Forall2_nth_error_left. exact Hall.
Qed.

End Batch.

Lemma steady_provider_order_preserving (tr : list event)
    (input : list string) :
  exists data,
    embeddings_create steady_services tr "ada" input = Ok data
    /\ Forall2 (fun text e => e = unit_embedding text) input data.
Proof.
  exists (map unit_embedding input). split; [reflexivity|].
  induction input; simpl; constructor; auto.
Qed.

Lemma get_embeddings_batch_positional_witness :
  exists result tr',
    get_embeddings_batch steady_services "ada" ["a"; "bb"; "ccc"] 2 []
    = (Ok result, tr')
    /\ length result = length ["a"; "bb"; "ccc"]
    /\ Forall2 (fun text e => e = unit_embedding text)
               ["a"; "bb"; "ccc"] result
    /\ (forall (i : nat) text,
          nth_error ["a"; "bb"; "ccc"] i = Some text ->
          exists e, nth_error result i = Some e /\ e = unit_embedding text).
Proof.
  apply (get_embeddings_batch_positional steady_services "ada"
           (fun text e => e = unit_embedding text)
           steady_provider_order_preserving ["a"; "bb"; "ccc"] 2).
  lia.
Defined.

(** *** The retry policy of [get_embedding] *)

(** Every wait of [wait_exponential(multiplier=1, min=2, max=10)] lies
    between 2 and 10 seconds. *)
Lemma wait_exponential_bounds (attempt_number : Z) :
  2 <= wait_exponential 1 2 10 attempt_number <= 10.
Proof. unfold wait_exponential. lia. Qed.

Section Retry.

Variable svc : Services.
Variable deployment : string.

Lemma get_embedding_body_trace (text : string) (tr : list event) :
  snd (get_embedding_body svc deployment text tr)
  = tr ++ [EmbeddingsCreate deployment [text]].
Proof.
  unfold get_embedding_body, bind, create, call.
  destruct (embeddings_create svc tr deployment [text]) as [[|e rest]|err];
    reflexivity.
Qed.

Lemma count_creates_app (tr1 tr2 : list event) :
  count_creates (tr1 ++ tr2) = (count_creates tr1 + count_creates tr2)%nat.
Proof.
  unfold count_creates. now rewrite List.filter_app, length_app.
Qed.

(** From any attempt on, the decorated function makes at most
    [remaining + 1] calls, sleeps 2 to 10 seconds between them, and raises
    only after the last permitted call, with [RetryError]. *)
Lemma attempt_from_policy (text : string) (remaining : nat)
    (attempt_number : Z) (tr : list event) :
  exists evs,
    snd (attempt_from remaining attempt_number (wait_exponential 1 2 10)
           (get_embedding_body svc deployment text) tr) = tr ++ evs
    /\ (1 <= count_creates evs <= S remaining)%nat
    /\ Forall retry_event evs
    /\ (forall e,
          fst (attempt_from remaining attempt_number
                 (wait_exponential 1 2 10)
                 (get_embedding_body svc deployment text) tr) = Raise e ->
          (exists last, e = RetryError last)
          /\ count_creates evs = S remaining).
Proof.
  revert attempt_number tr.
  induction remaining as [|remaining IH]; intros attempt_number tr; simpl.
  - pose proof (get_embedding_body_trace text tr) as Htr.
    destruct (get_embedding_body svc deployment text tr) as [[a|e] tr'];
      simpl in Htr; subst tr';
      exists [EmbeddingsCreate deployment [text]]; simpl;
      (split; [reflexivity|]); (split; [vm_compute; lia|]);
      (split; [repeat constructor|]); intros e' He'.
    + discriminate.
    + injection He' as <-. split; [eauto|reflexivity].
  - pose proof (get_embedding_body_trace text tr) as Htr.
    destruct (get_embedding_body svc deployment text tr) as [[a|e] tr'];
      simpl in Htr; subst tr'.
    + exists [EmbeddingsCreate deployment [text]]; simpl.
      split; [reflexivity|]. split; [vm_compute; lia|].
      split; [repeat constructor|]. intros e' He'. discriminate.
    + destruct (IH (attempt_number + 1)
                  ((tr ++ [EmbeddingsCreate deployment [text]])
                   ++ [Sleep (wait_exponential 1 2 10 attempt_number)]))
        as (evs & Hsnd & Hcount & Hall & Hraise).
      exists ([EmbeddingsCreate deployment [text];
               Sleep (wait_exponential 1 2 10 attempt_number)] ++ evs).
      split; [rewrite Hsnd; now rewrite <- !app_assoc|].
      split; [rewrite count_creates_app;
              change (count_creates [EmbeddingsCreate deployment [text];
                        Sleep (wait_exponential 1 2 10 attempt_number)])
                with 1%nat; lia|].
      split.
      * apply Forall_app. split; [|exact Hall].
        constructor; [exact I|]. constructor; [|constructor].
        apply wait_exponential_bounds.
      * intros e' He'. destruct (Hraise e' He') as [Hlast Hn].
        split; [exact Hlast|].
        rewrite count_creates_app.
        change (count_creates [EmbeddingsCreate deployment [text];
                  Sleep (wait_exponential 1 2 10 attempt_number)])
          with 1%nat. lia.
Qed.

(** [get_embedding] calls the provider at most 3 times, sleeping 2 to 10
    seconds between calls, and raises only after the third call failed. *)
Lemma get_embedding_retry_policy (text : string) (tr : list event) :
  exists evs,
    snd (get_embedding svc deployment text tr) = tr ++ evs
    /\ (1 <= count_creates evs <= 3)%nat
    /\ Forall retry_event evs
    /\ (forall e,
          fst (get_embedding svc deployment text tr) = Raise e ->
          (exists last, e = RetryError last) /\ count_creates evs = 3%nat).
Proof.
  unfold get_embedding, retry.
  change (Z.to_nat (3 - 1)) with 2%nat.
  apply attempt_from_policy.
Qed.

(** [get_embeddings_batch] has no retry: when the call for the first
    sub-batch fails, the failure is raised as it is, after that single
    call and without any sleep. *)
Lemma get_embeddings_batch_fails_at_once (texts : list string)
    (batch_size : Z) (tr : list event) (e : exn) :
  texts <> [] ->
  0 < batch_size ->
  embeddings_create svc tr deployment (slice texts 0 (0 + batch_size))
  = Raise e ->
  get_embeddings_batch svc deployment texts batch_size tr
  = (Raise e,
     tr ++ [EmbeddingsCreate deployment (slice texts 0 (0 + batch_size))]).
Proof.
  intros Hne Hpos Hfail. unfold get_embeddings_batch.
  destruct (batch_size =? 0) eqn:Hz; [apply Z.eqb_eq in Hz; lia|].
  rewrite range_positive_step by assumption.
  assert (Hcount : exists m,
             Z.to_nat ((len_list texts + batch_size - 1) / batch_size)
             = S m).
  { destruct texts as [|t ts]; [congruence|].
    pose proof (range_steps_cover (len_list (t :: ts)) batch_size
                  ltac:(unfold len_list; lia) Hpos) as Hc.
    unfold len_list in *. simpl length in *.
    destruct (Z.to_nat
                ((Z.of_nat (S (length ts)) + batch_size - 1) / batch_size))
      as [|m] eqn:Hm; [|eauto].
    assert (0 <= (Z.of_nat (S (length ts)) + batch_size - 1) / batch_size)
      by (apply Z.div_pos; lia).
    assert ((Z.of_nat (S (length ts)) + batch_size - 1) / batch_size = 0)
      by lia.
    lia. }
  destruct Hcount as [m ->]. simpl seq. simpl map. simpl for_each.
  change (Z.of_nat 0 * batch_size) with 0.
  unfold bind, create, call. rewrite Hfail. reflexivity.
Qed.

End Retry.

(** C8: with a provider whose first call fails and whose second call
    succeeds, [get_embedding] sleeps 2 seconds, calls again and returns,
    whereas [get_embeddings_batch] raises the provider's error after its
    single call: batch embedding is not retried. *)
Theorem batch_embedding_is_not_retried :
  get_embedding (flaky_services 1) "ada" "a" []
  = (Ok (unit_embedding "a"),
     [EmbeddingsCreate "ada" ["a"]; Sleep 2; EmbeddingsCreate "ada" ["a"]])
  /\ get_embeddings_batch (flaky_services 1) "ada" ["a"] 16 []
     = (Raise (ServiceError "429 Too Many Requests"),
        [EmbeddingsCreate "ada" ["a"]]).
Proof. split; vm_compute; reflexivity. Qed.

End EmbeddingsProofs.

(** ** pdf_processor.py *)

Module PdfProcessorProofs.

Import PdfProcessor Statements Examples.

(** *** The loop that emits the chunks *)

Lemma emit_content full_text page_boundaries total i char_pos chunks :
  map content (emit full_text page_boundaries total i char_pos chunks)
  = chunks.
Proof.
  revert i char_pos. induction chunks as [|c chunks IH]; intros i char_pos.
  - reflexivity.
  - simpl. now rewrite IH.
Qed.

Lemma emit_length full_text page_boundaries total i char_pos chunks :
  length (emit full_text page_boundaries total i char_pos chunks)
  = length chunks.
Proof.
  rewrite <- (emit_content full_text page_boundaries total i char_pos chunks)
    at 2.
  now rewrite length_map.
Qed.

Lemma emit_chunk_index full_text page_boundaries total i char_pos chunks :
  map chunk_index (emit full_text page_boundaries total i char_pos chunks)
  = map (fun k => i + Z.of_nat k) (seq 0 (length chunks)).
Proof.
  revert i char_pos. induction chunks as [|c chunks IH]; intros i char_pos.
  - reflexivity.
  - simpl. rewrite IH. f_equal; [lia|].
    rewrite <- seq_shift, map_map. apply map_ext. intros k. lia.
Qed.

Lemma emit_total_chunks full_text page_boundaries total i char_pos chunks :
  Forall (fun c => total_chunks c = total)
         (emit full_text page_boundaries total i char_pos chunks).
Proof.
  revert i char_pos. induction chunks as [|c chunks IH]; intros i char_pos;
    simpl; constructor; auto.
Qed.

Lemma emit_section_title full_text page_boundaries total i char_pos chunks :
  Forall (fun c => section_title c = None)
         (emit full_text page_boundaries total i char_pos chunks).
Proof.
  revert i char_pos. induction chunks as [|c chunks IH]; intros i char_pos;
    simpl; constructor; auto.
Qed.

Lemma emit_page_numbers full_text page_boundaries total i char_pos chunks :
  Forall2 (fun c span =>
             page_numbers c
             = or_page_one (chunk_pages page_boundaries (fst span) (snd span)))
          (emit full_text page_boundaries total i char_pos chunks)
          (located_spans full_text char_pos chunks).
Proof.
  revert i char_pos. induction chunks as [|c chunks IH]; intros i char_pos;
    simpl; constructor; auto.
Qed.

Lemma located_spans_width full_text char_pos chunks :
  Forall2 (fun span chunk_text => snd span = fst span + len chunk_text)
          (located_spans full_text char_pos chunks) chunks.
Proof.
  revert char_pos. induction chunks as [|c chunks IH]; intros char_pos;
    simpl; constructor; auto.
Qed.

(** *** Page numbers of the boundary table *)

Lemma Forall_map_filter {A B} (P : B -> Prop) (f : A -> B) (g : A -> bool)
    (l : list A) :
  Forall P (map f l) -> Forall P (map f (List.filter g l)).
Proof.
  induction l as [|x l IH]; simpl; intros H; [constructor|].
  inversion H; subst. destruct (g x); simpl; auto.
Qed.

Lemma sorted_map_filter {A} (f : A -> Z) (g : A -> bool) (l : list A) :
  StronglySorted Z.lt (map f l) ->
  StronglySorted Z.lt (map f (List.filter g l)).
Proof.
  induction l as [|x l IH]; simpl; intros H; [constructor|].
  inversion H; subst. destruct (g x); simpl; auto.
  constructor; auto. now apply Forall_map_filter.
Qed.

Lemma extract_text_from (start : Z) (reader_pages : list (option string)) :
  let pages :=
    map (fun '(i, text) => (i + 1, strip (or_else text "")))
        (enumerate start reader_pages) in
  StronglySorted Z.lt (map fst pages)
  /\ Forall (fun page_num => start < page_num) (map fst pages).
Proof.
  revert start. induction reader_pages as [|t rest IH]; intros start; simpl.
  - split; constructor.
  - destruct (IH (start + 1)) as [Hsorted Hlow]. split.
    + constructor; [exact Hsorted|].
      eapply List.Forall_impl; [|exact Hlow]. simpl. intros; lia.
    + constructor; [lia|].
      eapply List.Forall_impl; [|exact Hlow]. simpl. intros; lia.
Qed.

(** The readers number the pages 1, 2, 3, ... *)
Lemma extract_text_sorted (reader_pages : list (option string)) :
  StronglySorted Z.lt (map fst (extract_text reader_pages)).
Proof. apply (extract_text_from 0 reader_pages). Qed.

Lemma extract_with_fallback_sorted (pdf : Pdf) :
  StronglySorted Z.lt (map fst (extract_with_fallback pdf)).
Proof.
  unfold extract_with_fallback.
  destruct (_ <? 1000); apply extract_text_sorted.
Qed.

Lemma fold_add_page (pages : list (Z * string)) (full_text : string)
    (page_boundaries : list (Z * Z * Z)) :
  map boundary_page (snd (fold_left add_page pages
                                   (full_text, page_boundaries)))
  = map boundary_page page_boundaries
    ++ map fst (List.filter has_text pages).
Proof.
  revert full_text page_boundaries.
  induction pages as [|[page_num text] pages IH];
    intros full_text page_boundaries; simpl.
  - now rewrite app_nil_r.
  - destruct text as [|c text]; unfold has_text at 1; simpl.
    + apply IH.
    + rewrite IH, map_app. simpl. now rewrite <- app_assoc.
Qed.

(** The boundary table has one entry for every page with text, in page
    order, and none for a page whose text is empty. *)
Lemma page_boundaries_skip_empty_pages (pages : list (Z * string)) :
  map boundary_page (snd (combine_pages pages))
  = map fst (List.filter has_text pages).
Proof. unfold combine_pages. now rewrite fold_add_page. Qed.

Lemma page_boundaries_sorted (pdf : Pdf) :
  StronglySorted Z.lt
    (map boundary_page (snd (combine_pages (extract_with_fallback pdf)))).
Proof.
  rewrite page_boundaries_skip_empty_pages.
  apply sorted_map_filter, extract_with_fallback_sorted.
Qed.

Lemma chunk_pages_boundary_page page_boundaries chunk_start chunk_end :
  chunk_pages page_boundaries chunk_start chunk_end
  = map boundary_page
        (List.filter (spans chunk_start chunk_end) page_boundaries).
Proof.
  unfold chunk_pages. apply map_ext. now intros [[? ?] ?].
Qed.

Lemma In_chunk_pages page_boundaries chunk_start chunk_end page_num :
  In page_num (chunk_pages page_boundaries chunk_start chunk_end)
  <-> exists page_start page_end,
        In (page_start, page_end, page_num) page_boundaries
        /\ chunk_start < page_end /\ chunk_end > page_start.
Proof.
  rewrite chunk_pages_boundary_page, in_map_iff. split.
  - intros ([[page_start page_end] p] & Hp & Hin). simpl in Hp. subst p.
    apply filter_In in Hin. destruct Hin as [Hin Hspan].
    unfold spans in Hspan. apply andb_true_iff in Hspan.
    exists page_start, page_end. split; [exact Hin|]. lia.
  - intros (page_start & page_end & Hin & Hlt & Hgt).
    exists (page_start, page_end, page_num). split; [reflexivity|].
    apply filter_In. split; [exact Hin|].
    unfold spans. apply andb_true_iff. lia.
Qed.

Lemma or_page_one_nonempty (pages : list Z) : or_page_one pages <> [].
Proof. destruct pages; discriminate. Qed.

Lemma Forall2_weaken {A B} (R1 R2 : A -> B -> Prop) (l : list A)
    (l' : list B) :
  (forall a b, R1 a b -> R2 a b) -> Forall2 R1 l l' -> Forall2 R2 l l'.
Proof. intros Himp H. induction H; constructor; auto. Qed.

Section Chunking.

Variable split_text : Z -> Z -> list string -> string -> list string.
Variable self : PDFProcessor.
Variable pdf : Pdf.

Let full_text := fst (combine_pages (extract_with_fallback pdf)).
Let page_boundaries := snd (combine_pages (extract_with_fallback pdf)).
Let chunks := text_splitter split_text self full_text.

Lemma chunk_document_unfold :
  chunk_document split_text self pdf
  = emit full_text page_boundaries (len_list chunks) 0 0 chunks.
Proof.
  unfold chunk_document, chunk_pages_of, chunks, full_text, page_boundaries.
  now destruct (combine_pages (extract_with_fallback pdf)).
Qed.

(** C3: the chunk located at the half-open span [(chunk_start, chunk_end)]
    gets as [page_numbers] the pages whose range in the buffer intersects
    the span, in ascending page order, or [[1]] when there is none; its
    [page_numbers] is never empty. *)
Theorem chunk_page_numbers_overlap :
  Forall2
    (fun c span =>
       let '(chunk_start, chunk_end) := span in
       let overlapping := chunk_pages page_boundaries chunk_start chunk_end in
       (forall page_num,
          In page_num overlapping
          <-> exists page_start page_end,
                In (page_start, page_end, page_num) page_boundaries
                /\ chunk_start < page_end /\ chunk_end > page_start)
       /\ StronglySorted Z.lt overlapping
       /\ page_numbers c
          = match overlapping with [] => [1] | _ => overlapping end
       /\ page_numbers c <> [])
    (chunk_document split_text self pdf)
    (located_spans full_text 0 chunks).
Proof.
  rewrite chunk_document_unfold.
  eapply Forall2_weaken; [|apply emit_page_numbers].
  intros c [chunk_start chunk_end] Hc. simpl in Hc.
  split; [intros page_num; apply In_chunk_pages|].
  split.
  { rewrite chunk_pages_boundary_page.
    apply sorted_map_filter, page_boundaries_sorted. }
  split; [exact Hc|].
  rewrite Hc. apply or_page_one_nonempty.
Qed.

(** C4: the emitted chunks carry the indices 0, 1, 2, ... in order, and
    every chunk's [total_chunks] is the number of chunks emitted. *)
Theorem chunk_index_contiguous :
  let emitted := chunk_document split_text self pdf in
  map chunk_index emitted = map Z.of_nat (seq 0 (length emitted))
  /\ (forall (k : nat) c,
        nth_error emitted k = Some c -> chunk_index c = Z.of_nat k)
  /\ Forall (fun c => total_chunks c = Z.of_nat (length emitted)) emitted.
Proof.
  simpl. rewrite chunk_document_unfold.
  assert (Hidx : map chunk_index
                   (emit full_text page_boundaries (len_list chunks) 0 0
                         chunks)
                 = map Z.of_nat
                     (seq 0 (length (emit full_text page_boundaries
                                       (len_list chunks) 0 0 chunks)))).
  { rewrite emit_chunk_index, emit_length. apply map_ext. intros; lia. }
  split; [exact Hidx|]. split.
  - intros k c Hk.
    assert (Hk' : nth_error
                    (map chunk_index
                       (emit full_text page_boundaries (len_list chunks)
                             0 0 chunks)) k = Some (chunk_index c))
      by (rewrite nth_error_map, Hk; reflexivity).
    rewrite Hidx, nth_error_map in Hk'.
    rewrite nth_error_seq in Hk'.
    destruct (k <? _)%nat; [|discriminate].
    injection Hk' as Hk'. rewrite <- Hk'. reflexivity.
  - rewrite emit_length. apply emit_total_chunks.
Qed.

(** The emitted contents are the splitter's segments, in order. *)
Lemma chunk_document_content :
  map content (chunk_document split_text self pdf) = chunks.
Proof. rewrite chunk_document_unfold. apply emit_content. Qed.

Lemma chunk_document_section_title :
  Forall (fun c => section_title c = None)
         (chunk_document split_text self pdf).
Proof. rewrite chunk_document_unfold. apply emit_section_title. Qed.

End Chunking.

(** C5: on the two-page document, split in the two chunks ["foo bar"] and
    ["bar"], the second chunk is searched from position 1 and found inside
    the first page, so both chunks get page 1 and page 2, which has text,
    is in no chunk's [page_numbers]. *)
Theorem second_page_not_covered :
  extract_with_fallback two_page_pdf = [(1, "foo bar"); (2, "bar")]
  /\ map boundary_page
         (snd (combine_pages (extract_with_fallback two_page_pdf))) = [1; 2]
  /\ map content
         (chunk_document paragraph_splitter small_processor two_page_pdf)
     = ["foo bar"; "bar"]
  /\ located_spans (fst (combine_pages (extract_with_fallback two_page_pdf)))
       0 ["foo bar"; "bar"] = [(0, 7); (4, 7)]
  /\ map page_numbers
         (chunk_document paragraph_splitter small_processor two_page_pdf)
     = [[1]; [1]]
  /\ ~ (exists c,
          In c (chunk_document paragraph_splitter small_processor
                  two_page_pdf)
          /\ In 2 (page_numbers c)).
Proof.
  repeat split; try (vm_compute; reflexivity).
  intros (c & Hc & H2). vm_compute in Hc.
  destruct Hc as [<-|[<-|[]]]; simpl in H2;
    destruct H2 as [H2|[]]; discriminate.
Qed.

End PdfProcessorProofs.

(** ** search_client.py *)

Module SearchClientProofs.

Import PdfProcessor SearchClient.

Lemma In_slice {A} (l : list A) (i j : Z) (x : A) :
  In x (slice l i j) -> In x l.
Proof.
  unfold slice. intros H.
  rewrite <- (firstn_skipn (Z.to_nat i) l). apply in_or_app. right.
  rewrite <- (firstn_skipn (Z.to_nat (j - i)) (skipn (Z.to_nat i) l)).
  apply in_or_app. now left.
Qed.

(** A chunk without section title is stored with the empty string. *)
Lemma make_doc_section_title document_name timestamp chunk embedding :
  section_title chunk = None ->
  doc_section_title (make_doc document_name timestamp (chunk, embedding))
  = "".
Proof. intros H. simpl. now rewrite H. Qed.

Lemma build_documents_section_title chunks embeddings document_name
    timestamp :
  Forall (fun c => section_title c = None) chunks ->
  Forall (fun d => doc_section_title d = "")
         (build_documents chunks embeddings document_name timestamp).
Proof.
  intros Hchunks. unfold build_documents.
  revert embeddings. induction Hchunks as [|c chunks Hc Hrest IH];
    intros [|e embeddings]; simpl; try constructor.
  - now apply make_doc_section_title.
  - apply IH.
Qed.

Section Upload.

Variable svc : Services.
Variable documents : list IndexDocument.
Variable batch_size : Z.

Let body := fun (i : Z) (_ : unit) =>
  let batch := slice documents i (i + batch_size) in
  call (UploadDocuments batch) (fun tr' => upload_documents svc tr' batch).

(** The upload loop only adds uploads of slices of [documents]. *)
Lemma upload_loop_trace (indices : list Z) (tr : list event) :
  exists evs,
    snd (for_each indices body tt tr) = tr ++ evs
    /\ Forall (fun ev => exists i,
                 ev = UploadDocuments (slice documents i (i + batch_size)))
              evs.
Proof.
  revert tr. induction indices as [|i indices IH]; intros tr; simpl.
  - exists []. rewrite app_nil_r. split; [reflexivity|constructor].
  - unfold bind. unfold body at 1. unfold call.
    destruct (upload_documents svc tr
                (slice documents i (i + batch_size))) as [[]|e].
    + destruct (IH (tr ++ [UploadDocuments
                             (slice documents i (i + batch_size))]))
        as (evs & Hsnd & Hall).
      exists (UploadDocuments (slice documents i (i + batch_size)) :: evs).
      split.
      * fold body. rewrite Hsnd. now rewrite <- app_assoc.
      * constructor; [eauto|exact Hall].
    + exists [UploadDocuments (slice documents i (i + batch_size))].
      split; [reflexivity|]. constructor; [eauto|constructor].
Qed.

End Upload.

(** C10: every chunk that [chunk_document] emits has no section title,
    the document built for it has the empty string as [section_title],
    and every document that [index_chunks] uploads for these chunks has
    the empty string there. *)
Theorem section_title_never_populated
    (split_text : Z -> Z -> list string -> string -> list string)
    (self : PDFProcessor) (pdf : Pdf) (svc : Services)
    (embeddings : list embedding) (document_name : string)
    (tr : list event) :
  let chunks := chunk_document split_text self pdf in
  Forall (fun c => section_title c = None) chunks
  /\ Forall (fun d => doc_section_title d = "")
            (build_documents chunks embeddings document_name
               (utcnow_isoformat svc tr))
  /\ exists evs,
       snd (index_chunks svc chunks embeddings document_name tr) = tr ++ evs
       /\ Forall (fun ev => exists batch,
                    ev = UploadDocuments batch
                    /\ Forall (fun d => doc_section_title d = "") batch)
                 evs.
Proof.
  simpl.
  pose proof (PdfProcessorProofs.chunk_document_section_title
                split_text self pdf) as Hnone.
  pose proof (build_documents_section_title _ embeddings document_name
                (utcnow_isoformat svc tr) Hnone) as Hdocs.
  split; [exact Hnone|]. split; [exact Hdocs|].
  unfold index_chunks.
  destruct (upload_loop_trace svc
              (build_documents (chunk_document split_text self pdf)
                 embeddings document_name (utcnow_isoformat svc tr))
              100
              (range 0 (len_list
                          (build_documents
                             (chunk_document split_text self pdf)
                             embeddings document_name
                             (utcnow_isoformat svc tr))) 100) tr)
    as (evs & Hsnd & Hall).
  exists evs. split; [exact Hsnd|].
  eapply List.Forall_impl; [|exact Hall].
  intros ev [i ->]. eexists. split; [reflexivity|].
  apply List.Forall_forall. intros d Hd.
  apply In_slice in Hd.
  rewrite List.Forall_forall in Hdocs. now apply Hdocs.
Qed.

End SearchClientProofs.

(** ** rag_pipeline.py *)

Module RagPipelineProofs.

Import RagPipeline Statements Examples.
Import EmbeddingsProofs.

Lemma retry_event_not_chat (ev : event) : retry_event ev -> not_chat ev.
Proof. destruct ev; simpl; intros H; try reflexivity; contradiction. Qed.

Section Pipeline.

Variable svc : Services.
Variable embedding_deployment : string.
Variable chat_deployment : string.
Variable top_k : Z.

Local Abbreviation retrieve := (retrieve svc embedding_deployment top_k).
Local Abbreviation generate := (generate svc chat_deployment).
Local Abbreviation query := (query svc embedding_deployment chat_deployment top_k).

(** Embedding the query adds no call to the generation service. *)
Lemma get_embedding_no_chat (text : string) (tr : list event) :
  exists evs,
    snd (Embeddings.get_embedding svc embedding_deployment text tr)
    = tr ++ evs
    /\ Forall not_chat evs.
Proof.
  destruct (get_embedding_retry_policy svc embedding_deployment text tr)
    as (evs & Hsnd & _ & Hall & _).
  exists evs. split; [exact Hsnd|].
  eapply List.Forall_impl; [|exact Hall]. apply retry_event_not_chat.
Qed.

(** What [retrieve] does once the query is embedded. *)
Lemma retrieve_after_embedding (user_query : string) (tr tr0 : list event)
    (query_embedding : embedding) :
  Embeddings.get_embedding svc embedding_deployment user_query tr
  = (Ok query_embedding, tr0) ->
  retrieve user_query tr
  = (match search_documents svc tr0 user_query query_embedding top_k with
     | Ok results => Ok (map SearchClient.make_match results)
     | Raise e => Raise e
     end,
     tr0 ++ [Search user_query query_embedding top_k]).
Proof.
  intros Hemb. unfold RagPipeline.retrieve, bind. rewrite Hemb.
  unfold SearchClient.hybrid_search, bind, call, ret.
  now destruct (search_documents svc tr0 user_query query_embedding top_k).
Qed.

Lemma retrieve_no_chat (user_query : string) (tr : list event) :
  exists evs,
    snd (retrieve user_query tr) = tr ++ evs /\ Forall not_chat evs.
Proof.
  destruct (get_embedding_no_chat user_query tr) as (evs & Hsnd & Hall).
  destruct (Embeddings.get_embedding svc embedding_deployment user_query tr)
    as [[query_embedding|e] tr0] eqn:Hemb; simpl in Hsnd; subst tr0.
  - rewrite (retrieve_after_embedding _ _ _ _ Hemb). simpl.
    exists (evs ++ [Search user_query query_embedding top_k]).
    split; [now rewrite app_assoc|].
    apply Forall_app. split; [exact Hall|]. now repeat constructor.
  - unfold RagPipeline.retrieve, bind. rewrite Hemb. simpl.
    exists evs. now split.
Qed.

(** [generate] issues exactly one completion request and raises what the
    request raises. *)
Lemma generate_once (user_query context : string) (tr : list event) :
  generate user_query context tr
  = (match chat_completions_create svc tr chat_deployment
             (SYSTEM_PROMPT_format context) user_query 0.3%float 1000 with
     | Ok message_content => Ok (or_else message_content "")
     | Raise e => Raise e
     end,
     tr ++ [ChatCompletion chat_deployment (SYSTEM_PROMPT_format context)
              user_query 0.3%float 1000]).
Proof.
  unfold RagPipeline.generate, bind, call, ret.
  now destruct (chat_completions_create svc tr chat_deployment
                  (SYSTEM_PROMPT_format context) user_query 0.3%float 1000).
Qed.

(** C1: when the query is embedded and the search returns no match,
    [query] returns the fixed not-found answer with no sources and
    confidence ["low"], and the calls it made, the embedding calls and the
    search, include no call to the generation service. *)
Theorem query_not_found (user_query : string) (tr tr0 : list event)
    (query_embedding : embedding) :
  Embeddings.get_embedding svc embedding_deployment user_query tr
  = (Ok query_embedding, tr0) ->
  search_documents svc tr0 user_query query_embedding top_k = Ok [] ->
  query user_query tr
  = (Ok {| answer := NOT_FOUND_ANSWER; sources := []; confidence := "low" |},
     tr0 ++ [Search user_query query_embedding top_k])
  /\ exists evs,
       tr0 ++ [Search user_query query_embedding top_k] = tr ++ evs
       /\ Forall not_chat evs.
Proof.
  intros Hemb Hsearch.
  pose proof (retrieve_after_embedding _ _ _ _ Hemb) as Hret.
  rewrite Hsearch in Hret. simpl in Hret.
  split.
  - unfold RagPipeline.query, bind. rewrite Hret. reflexivity.
  - destruct (retrieve_no_chat user_query tr) as (evs & Hsnd & Hall).
    rewrite Hret in Hsnd. simpl in Hsnd. eauto.
Qed.

(** C2: when retrieval returns a non-empty list of matches and the
    generation service answers, the confidence of the response is
    [confidence_of] the score of the first match: ["high"] above 0.03,
    ["medium"] above 0.02 and not above 0.03, ["low"] otherwise. *)
Theorem query_confidence (user_query : string) (tr tr1 : list event)
    (first : Match) (rest : list Match) (message_content : option string) :
  retrieve user_query tr = (Ok (first :: rest), tr1) ->
  chat_completions_create svc tr1 chat_deployment
    (SYSTEM_PROMPT_format (format_context (first :: rest))) user_query
    0.3%float 1000 = Ok message_content ->
  exists response tr2,
    query user_query tr = (Ok response, tr2)
    /\ confidence response = confidence_of (m_score first)
    /\ ((0.03 <? m_score first)%float = true ->
        confidence response = "high")
    /\ ((0.03 <? m_score first)%float = false ->
        (0.02 <? m_score first)%float = true ->
        confidence response = "medium")
    /\ ((0.03 <? m_score first)%float = false ->
        (0.02 <? m_score first)%float = false ->
        confidence response = "low")
    /\ (m_score first = 0.05%float -> confidence response = "high")
    /\ (m_score first = 0.025%float -> confidence response = "medium")
    /\ (m_score first = 0.01%float -> confidence response = "low").
Proof.
  intros Hret Hchat.
  eexists. eexists. split.
  - unfold RagPipeline.query. unfold bind at 1. rewrite Hret.
    unfold bind. rewrite generate_once, Hchat. reflexivity.
  - simpl. split; [reflexivity|].
    unfold confidence_of.
    repeat split.
    + now intros ->.
    + now intros -> ->.
    + now intros -> ->.
    + intros ->. reflexivity.
    + intros ->. reflexivity.
    + intros ->. reflexivity.
Qed.

(** The pipeline does not retry the generation call: [query] issues at
    most one completion request, and when that request fails the failure
    is what [query] raises. *)
Lemma query_generates_at_most_once (user_query : string)
    (tr : list event) :
  exists evs,
    snd (query user_query tr) = tr ++ evs
    /\ (length (List.filter is_chat evs) <= 1)%nat.
Proof.
  destruct (retrieve_no_chat user_query tr) as (evs & Hsnd & Hall).
  assert (Hnone : List.filter is_chat evs = []).
  { apply filter_nil_iff. exact Hall. }
  unfold RagPipeline.query. unfold bind at 1.
  destruct (retrieve user_query tr) as [[[|first rest]|e] tr1];
    simpl in Hsnd; subst tr1.
  - exists evs. split; [reflexivity|]. rewrite Hnone. simpl. lia.
  - unfold bind. rewrite generate_once.
    exists (evs ++ [ChatCompletion chat_deployment
                      (SYSTEM_PROMPT_format (format_context (first :: rest)))
                      user_query 0.3%float 1000]).
    split.
    + destruct (chat_completions_create svc _ _ _ _ _ _); simpl;
        now rewrite app_assoc.
    + rewrite List.filter_app, Hnone. simpl. lia.
  - exists evs. split; [reflexivity|]. rewrite Hnone. simpl. lia.
Qed.

Lemma query_generation_failure (user_query : string) (tr tr1 : list event)
    (first : Match) (rest : list Match) (e : exn) :
  retrieve user_query tr = (Ok (first :: rest), tr1) ->
  chat_completions_create svc tr1 chat_deployment
    (SYSTEM_PROMPT_format (format_context (first :: rest))) user_query
    0.3%float 1000 = Raise e ->
  query user_query tr
  = (Raise e,
     tr1 ++ [ChatCompletion chat_deployment
               (SYSTEM_PROMPT_format (format_context (first :: rest)))
               user_query 0.3%float 1000]).
Proof.
  intros Hret Hchat.
  unfold RagPipeline.query. unfold bind at 1. rewrite Hret.
  unfold bind. rewrite generate_once, Hchat. reflexivity.
Qed.

End Pipeline.

Lemma query_not_found_witness :
  RagPipeline.query steady_services "ada" "gpt" 5 "reset" []
  = (Ok {| answer := NOT_FOUND_ANSWER; sources := []; confidence := "low" |},
     [EmbeddingsCreate "ada" ["reset"]]
     ++ [Search "reset" (unit_embedding "reset") 5])
  /\ exists evs,
       [EmbeddingsCreate "ada" ["reset"]]
       ++ [Search "reset" (unit_embedding "reset") 5] = [] ++ evs
       /\ Forall not_chat evs.
Proof.
  apply (query_not_found steady_services "ada" "gpt" 5 "reset" []
           [EmbeddingsCreate "ada" ["reset"]] (unit_embedding "reset"));
    reflexivity.
Defined.

Lemma query_confidence_witness :
  exists response tr2,
    RagPipeline.query (scoring_services 0.025) "ada" "gpt" 5 "reset" []
    = (Ok response, tr2)
    /\ confidence response = "medium".
Proof.
  destruct (query_confidence (scoring_services 0.025) "ada" "gpt" 5 "reset"
              []
              [EmbeddingsCreate "ada" ["reset"];
               Search "reset" (unit_embedding "reset") 5]
              (top_match 0.025) []
              (Some "According to page 12, hold the reset button.")
              eq_refl eq_refl)
    as (response & tr2 & Hq & _ & _ & _ & _ & _ & Hmedium & _).
  exists response, tr2. split; [exact Hq|]. apply Hmedium. reflexivity.
Defined.

End RagPipelineProofs.

(** * Further properties *)

(** ** Loops over sub-batches *)

Lemma concat_batches {A} (l : list A) (b n : nat) :
  concat (map (fun k => firstn b (skipn (k * b) l)) (seq 0 n))
  = firstn (n * b) l.
Proof.
  induction n as [|n IH].
  - reflexivity.
  - rewrite seq_S, map_app, concat_app, IH. simpl.
    rewrite app_nil_r.
    replace (b + n * b)%nat with (n * b + b)%nat by lia.
    now rewrite firstn_plus.
Qed.

Lemma batch_length {A} (l : list A) (b k : nat) :
  (1 <= b)%nat -> (k * b < length l)%nat ->
  (1 <= length (firstn b (skipn (k * b) l)) <= b)%nat.
Proof.
  intros Hb Hk. rewrite length_firstn, length_skipn. lia.
Qed.

Lemma firstn_seq_le (start n m : nat) :
  (n <= m)%nat -> firstn n (seq start m) = seq start n.
Proof.
  revert start m. induction n as [|n IH]; intros start m Hle.
  - reflexivity.
  - destruct m as [|m]; [lia|]. simpl. f_equal. apply IH. lia.
Qed.

(** A loop whose body makes exactly one call adds to the trace the calls
    of a prefix of its items: of all of them when it returns, and of at
    least one when it raises. *)
Lemma for_each_trace {X St} (ev : X -> event) (body : X -> St -> M St) :
  (forall x acc tr, snd (body x acc tr) = tr ++ [ev x]) ->
  forall xs acc tr,
    exists n,
      (n <= length xs)%nat
      /\ snd (for_each xs body acc tr) = tr ++ map ev (firstn n xs)
      /\ (forall a, fst (for_each xs body acc tr) = Ok a -> n = length xs)
      /\ (forall e, fst (for_each xs body acc tr) = Raise e -> (1 <= n)%nat).
Proof.
  intros Hbody xs. induction xs as [|x xs IH]; intros acc tr.
  - exists 0%nat. simpl. rewrite app_nil_r.
    repeat split; auto. intros e He. discriminate.
  - simpl for_each. unfold bind.
    pose proof (Hbody x acc tr) as Hx.
    destruct (body x acc tr) as [[a|e] tr1]; simpl in Hx; subst tr1.
    + destruct (IH a (tr ++ [ev x])) as (n & Hn & Hsnd & Hok & Hraise).
      exists (S n). simpl. split; [lia|].
      split; [rewrite Hsnd; now rewrite <- app_assoc|].
      split; [intros a' Ha'; f_equal; eauto|intros; lia].
    + exists 1%nat. simpl. split; [lia|].
      split; [reflexivity|].
      split; [intros a' Ha'; discriminate|intros; lia].
Qed.

(** The same for a loop over [range(0, len(l), step)] whose body sends the
    slice [l[i:i+step]]: the slices sent are non-empty, hold at most [step]
    items, and together are a prefix of [l], the whole of it when the
    loop returns. *)
Lemma batched_loop_trace {A St} (l : list A) (step : Z)
    (ev : list A -> event) (body : Z -> St -> M St) :
  0 < step ->
  (forall i acc tr,
     snd (body i acc tr) = tr ++ [ev (slice l i (i + step))]) ->
  forall acc tr,
    exists batches rest,
      snd (for_each (range 0 (len_list l) step) body acc tr)
      = tr ++ map ev batches
      /\ Forall (fun batch =>
                   (1 <= length batch)%nat /\ len_list batch <= step)
                batches
      /\ l = concat batches ++ rest
      /\ (forall a,
            fst (for_each (range 0 (len_list l) step) body acc tr) = Ok a ->
            rest = [])
      /\ (forall e,
            fst (for_each (range 0 (len_list l) step) body acc tr)
            = Raise e ->
            batches <> []).
Proof.
  intros Hstep Hbody acc tr.
  rewrite range_positive_step by assumption.
  set (m := Z.to_nat ((len_list l + step - 1) / step)).
  set (b := Z.to_nat step).
  assert (Hb : (1 <= b)%nat) by (unfold b; lia).
  assert (Hq : 0 <= (len_list l + step - 1) / step)
    by (apply Z.div_pos; unfold len_list; lia).
  assert (Hlast : forall k, (k < m)%nat -> (k * b < length l)%nat).
  { intros k Hk.
    pose proof (Z.mul_div_le (len_list l + step - 1) step Hstep) as Hle.
    unfold m in Hk. unfold b, len_list in *.
    apply Nat2Z.inj_lt. rewrite Nat2Z.inj_mul, Z2Nat.id by lia.
    assert (Z.of_nat k + 1 <= (Z.of_nat (length l) + step - 1) / step)
      by lia.
    nia. }
  destruct (for_each_trace
              (fun i => ev (slice l i (i + step))) body Hbody
              (map (fun k => Z.of_nat k * step) (seq 0 m)) acc tr)
    as (n & Hn & Hsnd & Hok & Hraise).
  rewrite length_map, length_seq in Hn, Hok.
  rewrite firstn_map, firstn_seq_le in Hsnd by exact Hn.
  exists (map (fun k => firstn b (skipn (k * b) l)) (seq 0 n)),
         (skipn (n * b) l).
  split.
  { rewrite Hsnd. f_equal. rewrite !map_map. apply map_ext.
    intros k. f_equal. now apply slice_batch. }
  split.
  { apply List.Forall_forall. intros batch Hin.
    apply in_map_iff in Hin. destruct Hin as (k & <- & Hk).
    apply in_seq in Hk.
    pose proof (batch_length l b k Hb (Hlast k ltac:(lia))) as Hlen.
    split; [lia|]. unfold len_list, b in *. lia. }
  split.
  { rewrite concat_batches. symmetry. apply firstn_skipn. }
  split.
  { intros a Ha. rewrite (Hok a Ha). apply skipn_all2.
    pose proof (range_steps_cover (len_list l) step
                  ltac:(unfold len_list; lia) Hstep) as Hc.
    unfold m, b, len_list in *.
    rewrite <- Z2Nat.inj_mul by lia.
    apply Nat2Z.inj_le. rewrite Z2Nat.id by lia. exact Hc. }
  intros e He. specialize (Hraise e He).
  destruct n as [|n]; [lia|]. rewrite seq_S, map_app. simpl.
  intros Hnil. apply app_eq_nil in Hnil. destruct Hnil; discriminate.
Qed.

(** A list [f 0; ...; f (n - 1)] cut in two around one of its items. *)
Lemma map_seq_split {B} (f : nat -> B) (n : nat) (earlier : list B) (x : B)
    (later : list B) :
  map f (seq 0 n) = earlier ++ x :: later ->
  earlier = map f (seq 0 (length earlier))
  /\ x = f (length earlier)
  /\ n = (length earlier + S (length later))%nat.
Proof.
  intros Heq.
  assert (Hn : n = (length earlier + S (length later))%nat).
  { apply (f_equal (@length B)) in Heq.
    rewrite length_map, length_seq, length_app in Heq. simpl in Heq.
    exact Heq. }
  split; [|split; [|exact Hn]].
  - apply (f_equal (firstn (length earlier))) in Heq.
    rewrite firstn_map, firstn_seq_le in Heq by lia.
    rewrite firstn_app, firstn_all, Nat.sub_diag in Heq. simpl in Heq.
    rewrite app_nil_r in Heq. now symmetry.
  - apply (f_equal (fun l => nth_error l (length earlier))) in Heq.
    rewrite nth_error_app2, Nat.sub_diag in Heq by lia. simpl in Heq.
    rewrite nth_error_map, nth_error_seq in Heq.
    destruct (length earlier <? n)%nat eqn:Hlt;
      [|apply Nat.ltb_ge in Hlt; lia].
    simpl in Heq. now injection Heq as <-.
Qed.

(** A loop whose body makes exactly one call stops at the first call that
    fails: the calls it adds to the trace are those of a prefix of its
    items; every call but the last was answered; when the loop returns,
    the prefix is all the items and the last call was answered too; when
    it raises, the last call is the one that failed, with the exception
    the loop raises. *)
Lemma for_each_calls {X St} (ev : X -> event)
    (answered : X -> list event -> Prop)
    (failed : X -> list event -> exn -> Prop)
    (body : X -> St -> M St) :
  (forall x acc tr, snd (body x acc tr) = tr ++ [ev x]) ->
  (forall x acc tr a, fst (body x acc tr) = Ok a -> answered x tr) ->
  (forall x acc tr e, fst (body x acc tr) = Raise e -> failed x tr e) ->
  forall xs acc tr,
    exists n,
      (n <= length xs)%nat
      /\ snd (for_each xs body acc tr) = tr ++ map ev (firstn n xs)
      /\ (forall j x,
            nth_error xs j = Some x -> (S j < n)%nat ->
            answered x (tr ++ map ev (firstn j xs)))
      /\ (forall a,
            fst (for_each xs body acc tr) = Ok a ->
            n = length xs
            /\ forall j x,
                 nth_error xs j = Some x ->
                 answered x (tr ++ map ev (firstn j xs)))
      /\ (forall e,
            fst (for_each xs body acc tr) = Raise e ->
            exists k x,
              n = S k /\ nth_error xs k = Some x
              /\ failed x (tr ++ map ev (firstn k xs)) e).
Proof.
  intros Hbody Hans Hfail xs.
  induction xs as [|x xs IH]; intros acc tr.
  - exists 0%nat. simpl. rewrite app_nil_r.
    split; [lia|]. split; [reflexivity|].
    split; [intros j y Hj; lia|].
    split.
    + intros a _. split; [reflexivity|].
      intros [|j] y Hj; discriminate.
    + intros e He. discriminate.
  - simpl for_each. unfold bind.
    pose proof (Hbody x acc tr) as Hx.
    pose proof (Hans x acc tr) as Hxa.
    pose proof (Hfail x acc tr) as Hxf.
    destruct (body x acc tr) as [[a|e] tr1]; simpl in Hx, Hxa, Hxf;
      subst tr1.
    + destruct (IH a (tr ++ [ev x]))
        as (n & Hn & Hsnd & Hbefore & Hok & Hraise).
      assert (Hshift : forall j,
                 (tr ++ [ev x]) ++ map ev (firstn j xs)
                 = tr ++ map ev (firstn (S j) (x :: xs))).
      { intros j. now rewrite <- app_assoc. }
      exists (S n). split; [simpl; lia|].
      split; [rewrite Hsnd; apply Hshift|].
      split.
      { intros [|j] y Hj Hlt; simpl in Hj.
        - injection Hj as <-. simpl. rewrite app_nil_r. now apply (Hxa a).
        - rewrite <- Hshift. apply Hbefore; [exact Hj|lia]. }
      split.
      { intros a' Ha'. destruct (Hok a' Ha') as [Hlen Hall].
        split; [simpl; now f_equal|].
        intros [|j] y Hj; simpl in Hj.
        - injection Hj as <-. simpl. rewrite app_nil_r. now apply (Hxa a).
        - rewrite <- Hshift. now apply Hall. }
      intros e He. destruct (Hraise e He) as (k & y & -> & Hk & Hf).
      exists (S k), y. split; [reflexivity|]. split; [exact Hk|].
      rewrite <- Hshift. exact Hf.
    + exists 1%nat. split; [simpl; lia|].
      split; [reflexivity|].
      split; [intros j y Hj Hlt; lia|].
      split; [intros a' Ha'; discriminate|].
      intros e' He'. simpl in He'. injection He' as <-.
      exists 0%nat, x. split; [reflexivity|]. split; [reflexivity|].
      simpl. rewrite app_nil_r. now apply Hxf.
Qed.

(** The same for a loop over [range(0, len(l), step)] whose body sends the
    slice [l[i:i+step]]: the slices sent are non-empty, hold at most [step]
    items, and together are a prefix of [l]; every slice followed by
    another was answered; when the loop returns, the slices are the whole
    of [l] and all were answered; when it raises, the last slice sent is
    the one that failed, with the exception the loop raises. *)
Lemma batched_loop_calls {A St} (l : list A) (step : Z)
    (ev : list A -> event)
    (answered : list A -> list event -> Prop)
    (failed : list A -> list event -> exn -> Prop)
    (body : Z -> St -> M St) :
  0 < step ->
  (forall i acc tr,
     snd (body i acc tr) = tr ++ [ev (slice l i (i + step))]) ->
  (forall i acc tr a,
     fst (body i acc tr) = Ok a -> answered (slice l i (i + step)) tr) ->
  (forall i acc tr e,
     fst (body i acc tr) = Raise e -> failed (slice l i (i + step)) tr e) ->
  forall acc tr,
    exists batches rest,
      snd (for_each (range 0 (len_list l) step) body acc tr)
      = tr ++ map ev batches
      /\ Forall (fun batch =>
                   (1 <= length batch)%nat /\ len_list batch <= step)
                batches
      /\ l = concat batches ++ rest
      /\ (forall earlier batch later,
            batches = earlier ++ batch :: later -> later <> [] ->
            answered batch (tr ++ map ev earlier))
      /\ (forall a,
            fst (for_each (range 0 (len_list l) step) body acc tr) = Ok a ->
            rest = []
            /\ forall earlier batch later,
                 batches = earlier ++ batch :: later ->
                 answered batch (tr ++ map ev earlier))
      /\ (forall e,
            fst (for_each (range 0 (len_list l) step) body acc tr)
            = Raise e ->
            exists earlier last,
              batches = earlier ++ [last]
              /\ failed last (tr ++ map ev earlier) e).
Proof.
  intros Hstep Hbody Hans Hfail acc tr.
  rewrite range_positive_step by assumption.
  set (m := Z.to_nat ((len_list l + step - 1) / step)).
  set (b := Z.to_nat step).
  set (f := fun k : nat => firstn b (skipn (k * b) l)).
  set (g := fun k : nat => Z.of_nat k * step).
  assert (Hb : (1 <= b)%nat) by (unfold b; lia).
  assert (Hq : 0 <= (len_list l + step - 1) / step)
    by (apply Z.div_pos; unfold len_list; lia).
  assert (Hlast : forall k, (k < m)%nat -> (k * b < length l)%nat).
  { intros k Hk.
    pose proof (Z.mul_div_le (len_list l + step - 1) step Hstep) as Hle.
    unfold m in Hk. unfold b, len_list in *.
    apply Nat2Z.inj_lt. rewrite Nat2Z.inj_mul, Z2Nat.id by lia.
    assert (Z.of_nat k + 1 <= (Z.of_nat (length l) + step - 1) / step)
      by lia.
    nia. }
  assert (Hslice : forall k, slice l (g k) (g k + step) = f k).
  { intros k. unfold f, g, b. now apply slice_batch. }
  assert (Hsent : forall j,
             (j <= m)%nat ->
             map (fun i => ev (slice l i (i + step)))
                 (firstn j (map g (seq 0 m)))
             = map ev (map f (seq 0 j))).
  { intros j Hj. rewrite firstn_map, firstn_seq_le by exact Hj.
    rewrite !map_map. apply map_ext. intros k. now rewrite Hslice. }
  assert (Hnth : forall j,
             (j < m)%nat -> nth_error (map g (seq 0 m)) j = Some (g j)).
  { intros j Hj. rewrite nth_error_map, nth_error_seq.
    destruct (j <? m)%nat eqn:Hlt; [reflexivity|].
    apply Nat.ltb_ge in Hlt. lia. }
  destruct (for_each_calls
              (fun i => ev (slice l i (i + step)))
              (fun i => answered (slice l i (i + step)))
              (fun i => failed (slice l i (i + step)))
              body Hbody Hans Hfail
              (map g (seq 0 m)) acc tr)
    as (n & Hn & Hsnd & Hbefore & Hok & Hraise).
  rewrite length_map, length_seq in Hn, Hok.
  rewrite Hsent in Hsnd by exact Hn.
  exists (map f (seq 0 n)), (skipn (n * b) l).
  split; [exact Hsnd|].
  split.
  { apply List.Forall_forall. intros batch Hin.
    apply in_map_iff in Hin. destruct Hin as (k & <- & Hk).
    apply in_seq in Hk.
    pose proof (batch_length l b k Hb (Hlast k ltac:(lia))) as Hlen.
    split; [unfold f; lia|]. unfold f, len_list, b in *. lia. }
  split.
  { unfold f. rewrite concat_batches. symmetry. apply firstn_skipn. }
  split.
  { intros earlier batch later Hcut Hlater.
    apply map_seq_split in Hcut. destruct Hcut as (Hearlier & -> & Hlen).
    assert (Hj : (S (length earlier) < n)%nat).
    { destruct later; [contradiction|]. simpl in Hlen. lia. }
    rewrite Hearlier at 2. rewrite <- Hslice, <- Hsent by lia.
    apply Hbefore; [apply Hnth; lia|exact Hj]. }
  split.
  { intros a Ha. destruct (Hok a Ha) as [Hlen Hall]. split.
    - rewrite Hlen. apply skipn_all2.
      pose proof (range_steps_cover (len_list l) step
                    ltac:(unfold len_list; lia) Hstep) as Hc.
      unfold m, b, len_list in *.
      rewrite <- Z2Nat.inj_mul by lia.
      apply Nat2Z.inj_le. rewrite Z2Nat.id by lia. exact Hc.
    - intros earlier batch later Hcut.
      apply map_seq_split in Hcut.
      destruct Hcut as (Hearlier & -> & Hcount).
      rewrite Hearlier at 2. rewrite <- Hslice, <- Hsent by lia.
      apply Hall. apply Hnth. lia. }
  intros e He. destruct (Hraise e He) as (k & x & -> & Hk & Hf).
  exists (map f (seq 0 k)), (f k).
  split; [now rewrite seq_S, map_app|].
  rewrite Hnth in Hk by lia. injection Hk as <-.
  rewrite <- Hslice, <- Hsent by lia. exact Hf.
Qed.

(** ** config.py, further *)

Module ConfigExtra.

Import Config Statements Reading.

Lemma validate_config_as_filter (environ : gmap string string) :
  validate_config environ
  = map message_of (List.filter (unusable environ) required_vars).
Proof. unfold validate_config. now rewrite ConfigProofs.fold_check_var. Qed.

Lemma truthy_getenv_default (environ : gmap string string)
    (name : string) :
  unusable environ (name, "") = false ->
  getenv_default environ name "" <> "".
Proof.
  unfold unusable, getenv_default, getenv. simpl.
  destruct (environ !! name) as [[|c s]|]; simpl; discriminate.
Qed.

(** X1: when [validate_config] reports nothing, the endpoint and the two
    deployments of [get_openai_config] and the endpoint and the key of
    [get_search_config] are non-empty. *)
Theorem validated_config_is_complete (environ : gmap string string) :
  validate_config environ = [] ->
  endpoint (get_openai_config environ) <> ""
  /\ embedding_deployment (get_openai_config environ) <> ""
  /\ chat_deployment (get_openai_config environ) <> ""
  /\ search_endpoint (get_search_config environ) <> ""
  /\ search_api_key (get_search_config environ) <> "".
Proof.
  rewrite validate_config_as_filter. intros Hnil.
  apply map_eq_nil in Hnil. apply filter_nil_iff in Hnil.
  unfold required_vars in Hnil.
  repeat match goal with
         | H : Forall _ (_ :: _) |- _ => inversion H; clear H; subst
         end.
  repeat split; simpl; apply truthy_getenv_default; assumption.
Qed.

Lemma validated_config_is_complete_witness :
  endpoint (get_openai_config complete_environ) <> ""
  /\ embedding_deployment (get_openai_config complete_environ) <> ""
  /\ chat_deployment (get_openai_config complete_environ) <> ""
  /\ search_endpoint (get_search_config complete_environ) <> ""
  /\ search_api_key (get_search_config complete_environ) <> "".
Proof.
  apply (validated_config_is_complete complete_environ).
  vm_compute. reflexivity.
Defined.

(** X2: [validate_config] looks at the five required variables only:
    setting any other variable, such as [AZURE_OPENAI_API_KEY] or
    [USE_MANAGED_IDENTITY], to any value does not change its result. *)
Theorem validate_config_ignores_other_variables
    (environ : gmap string string) (name value : string) :
  ~ In name (map fst required_vars) ->
  validate_config (<[name := value]> environ) = validate_config environ.
Proof.
  intros Hother. rewrite !validate_config_as_filter. f_equal.
  apply filter_ext_in. intros [var_name description] Hin.
  unfold unusable, getenv. simpl.
  rewrite lookup_insert_ne; [reflexivity|].
  intros ->. apply Hother. apply in_map_iff.
  exists (var_name, description). now split.
Qed.

Lemma validate_config_ignores_other_variables_witness :
  validate_config (<["AZURE_OPENAI_API_KEY" := ""]> complete_environ)
  = validate_config complete_environ.
Proof.
  apply (validate_config_ignores_other_variables complete_environ
           "AZURE_OPENAI_API_KEY" "").
  simpl. intros H.
  repeat (destruct H as [H|H]; [discriminate|]). exact H.
Defined.

End ConfigExtra.

(** ** embeddings.py, further *)

Module EmbeddingsExtra.

Import Embeddings Statements Examples Reading.

Section Client.

Variable svc : Services.
Variable deployment : string.


Local Abbreviation attempt_fails := (attempt_fails svc deployment).

Lemma failed_attempt (text : string) (tr : list event) :
  attempt_fails tr text ->
  exists e,
    get_embedding_body svc deployment text tr
    = (Raise e, tr ++ [EmbeddingsCreate deployment [text]]).
Proof.
  unfold Reading.attempt_fails, get_embedding_body, bind, create, call.
  intros [[e He]|He]; rewrite He; eauto.
Qed.


(** X5: a batch size of zero raises [ValueError] and a negative batch size
    returns the empty list, whatever the texts; in both cases the provider
    is not called. *)
Theorem get_embeddings_batch_nonpositive_size (texts : list string)
    (batch_size : Z) (tr : list event) :
  batch_size <= 0 ->
  get_embeddings_batch svc deployment texts batch_size tr
  = (if batch_size =? 0 then Raise ValueError else Ok [], tr).
Proof.
  intros Hle. unfold get_embeddings_batch.
  destruct (batch_size =? 0) eqn:Hz; [reflexivity|].
  apply Z.eqb_neq in Hz.
  assert (Hrange : range 0 (len_list texts) batch_size = []).
  { unfold range. destruct (0 <? batch_size) eqn:Hpos;
      [apply Z.ltb_lt in Hpos; lia|].
    assert (Hcount : (0 - len_list texts - batch_size - 1) / - batch_size
                     <= 0).
    { apply Z.lt_succ_r. apply Z.div_lt_upper_bound; [lia|].
      unfold len_list. lia. }
    destruct (Z.to_nat _) eqn:Hn; [reflexivity|lia]. }
  rewrite Hrange. reflexivity.
Qed.

(** X6: for a positive batch size, the calls [get_embeddings_batch] makes
    to the provider, and no others, carry sub-batches that are non-empty,
    hold at most [batch_size] texts and, put end to end, are a prefix of
    [texts].  It stops at the first call that fails: every call followed
    by another was answered; when it returns, the sub-batches are all of
    [texts] and every call was answered; when it raises, the last call
    made is the one that failed, and it raises the exception of that
    call. *)
Theorem get_embeddings_batch_calls (texts : list string) (batch_size : Z)
    (tr : list event) :
  0 < batch_size ->
  exists inputs rest,
    snd (get_embeddings_batch svc deployment texts batch_size tr)
    = tr ++ map (create_event deployment) inputs
    /\ Forall (fun input =>
                 (1 <= length input)%nat /\ len_list input <= batch_size)
              inputs
    /\ texts = concat inputs ++ rest
    /\ (forall earlier input later,
          inputs = earlier ++ input :: later -> later <> [] ->
          exists data,
            embeddings_create svc
              (tr ++ map (create_event deployment) earlier) deployment input
            = Ok data)
    /\ (forall result,
          fst (get_embeddings_batch svc deployment texts batch_size tr)
          = Ok result ->
          rest = []
          /\ forall earlier input later,
               inputs = earlier ++ input :: later ->
               exists data,
                 embeddings_create svc
                   (tr ++ map (create_event deployment) earlier)
                   deployment input
                 = Ok data)
    /\ (forall e,
          fst (get_embeddings_batch svc deployment texts batch_size tr)
          = Raise e ->
          exists earlier last,
            inputs = earlier ++ [last]
            /\ embeddings_create svc
                 (tr ++ map (create_event deployment) earlier)
                 deployment last
               = Raise e).
Proof.
  intros Hpos. unfold get_embeddings_batch.
  destruct (batch_size =? 0) eqn:Hz; [apply Z.eqb_eq in Hz; lia|].
  apply (batched_loop_calls texts batch_size (create_event deployment)
           (fun input tr0 =>
              exists data,
                embeddings_create svc tr0 deployment input = Ok data)
           (fun input tr0 e =>
              embeddings_create svc tr0 deployment input = Raise e));
    [exact Hpos| | |];
    intros i acc tr0; unfold bind, create, call;
    destruct (embeddings_create svc tr0 deployment
                (slice texts i (i + batch_size))) as [data|e0];
    simpl; try reflexivity; intros ? Heq; try discriminate.
  - now exists data.
  - now injection Heq as <-.
Qed.

End Client.


Lemma get_embeddings_batch_nonpositive_size_witness :
  get_embeddings_batch steady_services "ada" ["a"; "b"] (-4) []
  = (Ok [], []).
Proof.
  apply (get_embeddings_batch_nonpositive_size steady_services "ada"
           ["a"; "b"] (-4) []).
  lia.
Defined.

Lemma get_embeddings_batch_calls_witness :
  exists inputs rest,
    snd (get_embeddings_batch steady_services "ada" ["a"; "bb"; "ccc"] 2 [])
    = [] ++ map (create_event "ada") inputs
    /\ Forall (fun input =>
                 (1 <= length input)%nat /\ len_list input <= 2)
              inputs
    /\ ["a"; "bb"; "ccc"] = concat inputs ++ rest
    /\ (forall earlier input later,
          inputs = earlier ++ input :: later -> later <> [] ->
          exists data,
            embeddings_create steady_services
              ([] ++ map (create_event "ada") earlier) "ada" input
            = Ok data)
    /\ (forall result,
          fst (get_embeddings_batch steady_services "ada"
                 ["a"; "bb"; "ccc"] 2 [])
          = Ok result ->
          rest = []
          /\ forall earlier input later,
               inputs = earlier ++ input :: later ->
               exists data,
                 embeddings_create steady_services
                   ([] ++ map (create_event "ada") earlier) "ada" input
                 = Ok data)
    /\ (forall e,
          fst (get_embeddings_batch steady_services "ada"
                 ["a"; "bb"; "ccc"] 2 [])
          = Raise e ->
          exists earlier last,
            inputs = earlier ++ [last]
            /\ embeddings_create steady_services
                 ([] ++ map (create_event "ada") earlier) "ada" last
               = Raise e).
Proof.
  apply (get_embeddings_batch_calls steady_services "ada"
           ["a"; "bb"; "ccc"] 2 []).
  lia.
Defined.

End EmbeddingsExtra.

(** ** pdf_processor.py, further *)

Module PdfProcessorExtra.

Import PdfProcessor Statements Examples Reading.

(** *** Chunk identifiers *)

Lemma digits_value_zeros (k : nat) (digits : string) :
  digits_value (zeros k +:+ digits) = digits_value digits.
Proof.
  induction k as [|k IH]; [reflexivity|].
  unfold digits_value in *. simpl.
  destruct (NilEmpty.uint_of_string (zeros k +:+ digits)) as [d|];
    destruct (NilEmpty.uint_of_string digits) as [d'|];
    simpl in *; try discriminate; auto.
Qed.

Lemma digits_value_str_int (i : Z) :
  0 <= i -> digits_value (str_int i) = Some i.
Proof.
  intros Hi. unfold digits_value, str_int.
  pose proof (DecimalZ.of_to i) as Hround.
  destruct i as [|p|p]; [reflexivity| |lia].
  simpl in *.
  assert (Hnil : Pos.to_uint p <> Decimal.Nil)
    by apply DecimalPos.Unsigned.to_uint_nonnil.
  assert (Hstr : NilZero.string_of_uint (Pos.to_uint p)
                 = NilEmpty.string_of_uint (Pos.to_uint p))
    by (destruct (Pos.to_uint p); [congruence|reflexivity..]).
  rewrite Hstr, NilEmpty.usu. simpl. now rewrite Hround.
Qed.

(** The index is read back from the identifier built for it. *)
Lemma read_chunk_id_format (i : Z) :
  0 <= i -> read_chunk_id ("chunk_" +:+ format_04d i) = Some i.
Proof.
  intros Hi.
  change (read_chunk_id ("chunk_" +:+ format_04d i))
    with (digits_value (format_04d i)).
  unfold format_04d.
  rewrite digits_value_zeros. now apply digits_value_str_int.
Qed.

Lemma emit_chunk_id full_text page_boundaries total i char_pos chunks :
  0 <= i ->
  Forall (fun c => read_chunk_id (chunk_id c) = Some (chunk_index c))
         (emit full_text page_boundaries total i char_pos chunks).
Proof.
  revert i char_pos. induction chunks as [|c chunks IH];
    intros i char_pos Hi; simpl; constructor.
  - simpl. now apply read_chunk_id_format.
  - apply IH. lia.
Qed.

(** *** The cursor of the search *)

Lemma index_from (n m : nat) (s1 s2 : string) :
  index n s1 s2 = Some m -> (n <= m)%nat.
Proof.
  revert n m. induction s2 as [|c s2 IH]; intros n m H; simpl in H.
  - destruct n; [|discriminate]. lia.
  - destruct n as [|n].
    + lia.
    + destruct (index n s1 s2) as [k|] eqn:Hk; [|discriminate].
      injection H as <-. apply IH in Hk. lia.
Qed.

Lemma locate_from (full_text chunk_text : string) (char_pos : Z) :
  0 <= char_pos -> char_pos <= locate full_text chunk_text char_pos.
Proof.
  intros Hpos. unfold locate, find.
  destruct (index (Z.to_nat char_pos) chunk_text full_text) as [m|] eqn:Hm.
  - apply index_from in Hm.
    destruct (Z.of_nat m =? -1) eqn:Heq; lia.
  - simpl. lia.
Qed.

Lemma located_spans_from (full_text : string) (char_pos : Z)
    (chunks : list string) :
  0 <= char_pos ->
  Forall (fun chunk_start => char_pos <= chunk_start)
         (map fst (located_spans full_text char_pos chunks))
  /\ StronglySorted Z.lt (map fst (located_spans full_text char_pos chunks)).
Proof.
  revert char_pos. induction chunks as [|c chunks IH]; intros char_pos Hpos;
    simpl.
  - split; constructor.
  - pose proof (locate_from full_text c char_pos Hpos) as Hloc.
    destruct (IH (locate full_text c char_pos + 1) ltac:(lia))
      as [Hlow Hsorted].
    split.
    + constructor; [exact Hloc|].
      eapply List.Forall_impl; [|exact Hlow]. simpl. intros; lia.
    + constructor; [exact Hsorted|].
      eapply List.Forall_impl; [|exact Hlow]. simpl. intros; lia.
Qed.

(** *** The boundary table *)

Lemma len_append (s1 s2 : string) : len (s1 +:+ s2) = len s1 + len s2.
Proof.
  unfold len. rewrite <- Nat2Z.inj_add. f_equal.
  induction s1 as [|c s1 IH]; simpl; [reflexivity|]. now rewrite IH.
Qed.

Lemma tiles_snoc (start stop : Z) (page_boundaries : list (Z * Z * Z))
    (page_end page_num : Z) :
  tiles start page_boundaries stop ->
  stop < page_end ->
  tiles start (page_boundaries ++ [(stop, page_end, page_num)]) page_end.
Proof.
  revert start. induction page_boundaries as [|[[s e] p] rest IH];
    intros start Htiles Hlt; simpl in *.
  - subst. auto.
  - destruct Htiles as (Hs & Hse & Hrest). auto.
Qed.

Lemma fold_add_page_tiles (pages : list (Z * string)) (full_text : string)
    (page_boundaries : list (Z * Z * Z)) :
  tiles 0 page_boundaries (len full_text) ->
  tiles 0 (snd (fold_left add_page pages (full_text, page_boundaries)))
        (len (fst (fold_left add_page pages (full_text, page_boundaries)))).
Proof.
  revert full_text page_boundaries.
  induction pages as [|[page_num text] pages IH];
    intros full_text page_boundaries Htiles; simpl.
  - exact Htiles.
  - destruct text as [|c text]; [now apply IH|].
    apply IH. apply tiles_snoc; [exact Htiles|].
    rewrite len_append. unfold len. simpl String.length. lia.
Qed.

Lemma fold_add_page_widths (pages : list (Z * string)) (full_text : string)
    (page_boundaries : list (Z * Z * Z)) (done : list (Z * string)) :
  Forall2 (fun boundary page =>
             let '(page_start, page_end, page_num) := boundary in
             page_num = fst page
             /\ page_end - page_start = len (snd page) + 2)
          page_boundaries done ->
  Forall2 (fun boundary page =>
             let '(page_start, page_end, page_num) := boundary in
             page_num = fst page
             /\ page_end - page_start = len (snd page) + 2)
          (snd (fold_left add_page pages (full_text, page_boundaries)))
          (done ++ List.filter has_text pages).
Proof.
  revert full_text page_boundaries done.
  induction pages as [|[page_num text] pages IH];
    intros full_text page_boundaries done Hdone; simpl.
  - now rewrite app_nil_r.
  - destruct text as [|c text]; unfold has_text at 1; simpl.
    + now apply IH.
    + replace (done ++ (page_num, String c text)
                 :: List.filter has_text pages)
        with ((done ++ [(page_num, String c text)])
              ++ List.filter has_text pages)
        by (now rewrite <- app_assoc).
      apply IH. apply Forall2_app; [exact Hdone|].
      constructor; [|constructor]. simpl. split; [reflexivity|].
      rewrite !len_append. unfold paragraph_break, newline, len.
      simpl String.length. lia.
Qed.

Lemma tiles_overlap (start stop : Z) (page_boundaries : list (Z * Z * Z))
    (chunk_start chunk_end : Z) :
  tiles start page_boundaries stop ->
  start <= chunk_start < stop ->
  chunk_start < chunk_end ->
  chunk_pages page_boundaries chunk_start chunk_end <> [].
Proof.
  revert start. induction page_boundaries as [|[[s e] p] rest IH];
    intros start Htiles Hin Hlt; simpl in Htiles.
  - lia.
  - destruct Htiles as (Hs & Hse & Hrest). subst s.
    unfold chunk_pages. simpl.
    destruct (chunk_start <? e) eqn:He.
    + assert (Hgt : (chunk_end >? start) = true) by lia.
      rewrite Hgt. simpl. discriminate.
    + simpl. apply Z.ltb_ge in He.
      apply (IH e Hrest); lia.
Qed.

Lemma substring_beyond (s : string) (n m : nat) :
  (String.length s <= n)%nat -> substring n m s = "".
Proof.
  revert n m. induction s as [|c s IH]; intros n m Hle; simpl.
  - destruct n, m; reflexivity.
  - destruct n as [|n]; [simpl in Hle; lia|].
    apply IH. simpl in Hle. lia.
Qed.

(** *** White space *)

Lemma lstrip_all_space (s : string) : all_space s = true -> lstrip s = "".
Proof.
  induction s as [|c s IH]; simpl; [reflexivity|].
  intros H. apply andb_true_iff in H. destruct H as [Hc Hs].
  rewrite Hc. now apply IH.
Qed.

Lemma extract_text_blank (start : Z) (reader_pages : list (option string)) :
  Forall (fun text => blank_page text = true) reader_pages ->
  Forall (fun page => snd page = "")
         (map (fun '(i, text) => (i + 1, strip (or_else text "")))
              (enumerate start reader_pages)).
Proof.
  intros Hblank. revert start.
  induction Hblank as [|text rest Htext Hrest IH]; intros start; simpl;
    constructor; [|apply IH].
  cbn [snd]. destruct text as [[|c s]|]; [reflexivity| |reflexivity].
  change (or_else (Some (String c s)) "") with (String c s).
  unfold strip. rewrite (lstrip_all_space (String c s) Htext).
  reflexivity.
Qed.

Lemma combine_pages_blank (pages : list (Z * string)) :
  Forall (fun page => snd page = "") pages ->
  combine_pages pages = ("", []).
Proof.
  intros Hblank. unfold combine_pages. generalize ("", @nil (Z * Z * Z)).
  induction Hblank as [|[page_num text] rest Htext Hrest IH]; intros acc;
    simpl; [reflexivity|].
  simpl in Htext. subst text. destruct acc. apply IH.
Qed.

(** *** The emitted chunks *)

Lemma emit_spans full_text page_boundaries total i char_pos chunks :
  0 <= char_pos ->
  Forall2 (fun c span =>
             page_numbers c
             = or_page_one (chunk_pages page_boundaries (fst span)
                              (snd span))
             /\ snd span = fst span + len (content c)
             /\ 0 <= fst span)
          (emit full_text page_boundaries total i char_pos chunks)
          (located_spans full_text char_pos chunks).
Proof.
  revert i char_pos. induction chunks as [|c chunks IH];
    intros i char_pos Hpos; simpl; constructor.
  - simpl. pose proof (locate_from full_text c char_pos Hpos).
    split; [reflexivity|]. split; [reflexivity|lia].
  - apply IH. pose proof (locate_from full_text c char_pos Hpos). lia.
Qed.

Lemma emit_without_boundaries full_text total i char_pos chunks :
  Forall (fun c => page_numbers c = [1])
         (emit full_text [] total i char_pos chunks).
Proof.
  revert i char_pos. induction chunks as [|c chunks IH]; intros i char_pos;
    simpl; constructor; auto.
Qed.

(** X10: from a cursor that is not negative, [locate] returns either the
    first position at or after the cursor where the segment occurs in the
    buffer, or the cursor itself when the segment occurs nowhere from the
    cursor on. *)
Theorem locate_first_occurrence (full_text chunk_text : string)
    (char_pos : Z) :
  chunk_text <> "" ->
  0 <= char_pos ->
  let chunk_start := locate full_text chunk_text char_pos in
  (char_pos <= chunk_start
   /\ substring (Z.to_nat chunk_start) (String.length chunk_text) full_text
      = chunk_text
   /\ forall p : nat,
        (Z.to_nat char_pos <= p < Z.to_nat chunk_start)%nat ->
        substring p (String.length chunk_text) full_text <> chunk_text)
  \/ (chunk_start = char_pos
      /\ forall p : nat,
           (Z.to_nat char_pos <= p)%nat ->
           substring p (String.length chunk_text) full_text <> chunk_text).
Proof.
  intros Hne Hpos. unfold locate, find. simpl.
  destruct (index (Z.to_nat char_pos) chunk_text full_text) as [m|] eqn:Hm.
  - left. assert (Hneg : (Z.of_nat m =? -1) = false)
      by (apply Z.eqb_neq; lia).
    rewrite Hneg. rewrite Nat2Z.id.
    pose proof (index_from _ _ _ _ Hm) as Hle.
    split; [lia|]. split; [now apply index_correct1 in Hm|].
    intros p Hp. apply (index_correct2 _ _ _ _ Hm); lia.
  - right. simpl. split; [reflexivity|].
    intros p Hp. now apply (index_correct3 _ _ _ _ Hm).
Qed.

(** X11: the search goes forward only: the positions at which successive
    segments are located are not negative and strictly increase, whatever
    the segments are, and each span is as wide as its segment. *)
Theorem located_spans_increase (full_text : string) (chunks : list string) :
  let spans := located_spans full_text 0 chunks in
  Forall (fun chunk_start => 0 <= chunk_start) (map fst spans)
  /\ StronglySorted Z.lt (map fst spans)
  /\ Forall2 (fun span chunk_text => snd span = fst span + len chunk_text)
             spans chunks.
Proof.
  simpl. destruct (located_spans_from full_text 0 chunks ltac:(lia))
    as [Hlow Hsorted].
  split; [exact Hlow|]. split; [exact Hsorted|].
  apply PdfProcessorProofs.located_spans_width.
Qed.

(** X12: the boundary table tiles the buffer: its ranges follow one
    another from 0 to the length of the buffer, and there is one per page
    with text, in order, as wide as the page's text plus the two
    characters of the paragraph break. *)
Theorem page_boundaries_tile_buffer (pages : list (Z * string)) :
  tiles 0 (snd (combine_pages pages)) (len (fst (combine_pages pages)))
  /\ Forall2 (fun boundary page =>
                let '(page_start, page_end, page_num) := boundary in
                page_num = fst page
                /\ page_end - page_start = len (snd page) + 2)
             (snd (combine_pages pages))
             (List.filter has_text pages).
Proof.
  unfold combine_pages. split.
  - apply fold_add_page_tiles. reflexivity.
  - apply (fold_add_page_widths pages "" [] []). constructor.
Qed.

Section Chunking.

Variable split_text : Z -> Z -> list string -> string -> list string.
Variable self : PDFProcessor.
Variable pdf : Pdf.

Let full_text := fst (combine_pages (extract_with_fallback pdf)).
Let page_boundaries := snd (combine_pages (extract_with_fallback pdf)).
Let chunks := text_splitter split_text self full_text.

(** X7: the identifiers of the emitted chunks are pairwise distinct, and
    the index of a chunk can be read back from its identifier. *)
Theorem chunk_ids_distinct :
  let emitted := chunk_document split_text self pdf in
  List.NoDup (map chunk_id emitted)
  /\ Forall (fun c => read_chunk_id (chunk_id c) = Some (chunk_index c))
            emitted.
Proof.
  simpl. rewrite PdfProcessorProofs.chunk_document_unfold.
  fold full_text page_boundaries chunks.
  pose proof (emit_chunk_id full_text page_boundaries (len_list chunks)
                0 0 chunks ltac:(lia)) as Hread.
  split; [|exact Hread].
  apply (List.NoDup_map_inv read_chunk_id).
  assert (Heq : map read_chunk_id
                  (map chunk_id
                     (emit full_text page_boundaries (len_list chunks)
                           0 0 chunks))
                = map (fun k => Some (Z.of_nat k))
                      (seq 0 (length chunks))).
  { rewrite map_map.
    rewrite (map_ext_Forall _ (fun c => Some (chunk_index c)) Hread).
    rewrite <- (map_map chunk_index Some).
    rewrite PdfProcessorProofs.emit_chunk_index, map_map.
    apply map_ext. intros k. f_equal. }
  rewrite Heq. apply List.NoDup_map_NoDup_ForallPairs; [|apply seq_NoDup].
  intros a b _ _ Hab. injection Hab as Hab. lia.
Qed.

(** X8: [chunk_document] emits one chunk for each segment that the
    splitter returns for the buffer, in the same order and with the
    segment as its content. *)
Theorem chunk_per_segment :
  map content (chunk_document split_text self pdf) = chunks
  /\ length (chunk_document split_text self pdf) = length chunks.
Proof.
  rewrite PdfProcessorProofs.chunk_document_unfold.
  fold full_text page_boundaries chunks.
  split; [apply PdfProcessorProofs.emit_content
         |apply PdfProcessorProofs.emit_length].
Qed.

(** X9: when both readers give, for every page, no text or white space
    only, the buffer and the boundary table are empty and every chunk that
    is emitted gets [page_numbers = [1]]. *)
Theorem blank_document_pages :
  Forall (fun text => blank_page text = true) (pypdf_pages pdf) ->
  Forall (fun text => blank_page text = true) (pdfplumber_pages pdf) ->
  full_text = ""
  /\ page_boundaries = []
  /\ Forall (fun c => page_numbers c = [1])
            (chunk_document split_text self pdf).
Proof.
  intros Hpypdf Hplumber.
  assert (Hblank : combine_pages (extract_with_fallback pdf) = ("", [])).
  { apply combine_pages_blank. unfold extract_with_fallback.
    destruct (_ <? 1000);
      [apply (extract_text_blank 0 _ Hplumber)
      |apply (extract_text_blank 0 _ Hpypdf)]. }
  rewrite PdfProcessorProofs.chunk_document_unfold.
  fold full_text page_boundaries chunks.
  assert (Hft : full_text = "") by (unfold full_text; now rewrite Hblank).
  assert (Hpb : page_boundaries = [])
    by (unfold page_boundaries; now rewrite Hblank).
  split; [exact Hft|]. split; [exact Hpb|].
  rewrite Hpb. apply emit_without_boundaries.
Qed.

(** X13: a chunk whose content is not empty and stands in the buffer at
    the position where it was located does not get the default page: its
    [page_numbers] are the pages its span intersects, there is at least
    one, and each is the number of a page that has text. *)
Theorem located_chunk_has_real_pages :
  Forall2
    (fun c span =>
       content c <> "" ->
       substring (Z.to_nat (fst span)) (String.length (content c)) full_text
       = content c ->
       page_numbers c = chunk_pages page_boundaries (fst span) (snd span)
       /\ page_numbers c <> []
       /\ forall page_num,
            In page_num (page_numbers c) ->
            exists text,
              In (page_num, text) (extract_with_fallback pdf)
              /\ text <> "")
    (chunk_document split_text self pdf)
    (located_spans full_text 0 chunks).
Proof.
  rewrite PdfProcessorProofs.chunk_document_unfold.
  fold full_text page_boundaries chunks.
  eapply PdfProcessorProofs.Forall2_weaken;
    [|apply (emit_spans full_text page_boundaries (len_list chunks) 0 0
               chunks); lia].
  intros c [chunk_start chunk_end] (Hpages & Hwidth & Hstart) Hne Hsub.
  simpl in *.
  assert (Hlen : (0 < String.length (content c))%nat)
    by (destruct (content c); [congruence|simpl; lia]).
  assert (Hinside : chunk_start < len full_text).
  { destruct (Z.lt_ge_cases chunk_start (len full_text)) as [Hlt|Hge];
      [exact Hlt|].
    rewrite substring_beyond in Hsub by (unfold len in Hge; lia).
    congruence. }
  assert (Htiles : tiles 0 page_boundaries (len full_text))
    by (apply (fold_add_page_tiles (extract_with_fallback pdf) "" []);
        reflexivity).
  assert (Hsome : chunk_pages page_boundaries chunk_start chunk_end <> []).
  { apply (tiles_overlap 0 (len full_text)); [exact Htiles|lia|].
    unfold len in *. lia. }
  assert (Hreal : page_numbers c
                  = chunk_pages page_boundaries chunk_start chunk_end).
  { rewrite Hpages.
    destruct (chunk_pages page_boundaries chunk_start chunk_end);
      [congruence|reflexivity]. }
  split; [exact Hreal|]. split; [now rewrite Hreal|].
  intros page_num Hin. rewrite Hreal in Hin.
  apply PdfProcessorProofs.In_chunk_pages in Hin.
  destruct Hin as (page_start & page_end & Hin & _).
  assert (Hnum : In page_num (map boundary_page page_boundaries)).
  { apply in_map_iff. exists (page_start, page_end, page_num).
    now split. }
  unfold page_boundaries in Hnum.
  rewrite PdfProcessorProofs.page_boundaries_skip_empty_pages in Hnum.
  apply in_map_iff in Hnum. destruct Hnum as ([n text] & Hn & Hfilter).
  simpl in Hn. subst n. apply filter_In in Hfilter.
  destruct Hfilter as [Hpage Htext]. exists text. split; [exact Hpage|].
  unfold has_text in Htext. simpl in Htext. now destruct text.
Qed.

End Chunking.

Lemma extract_text_numbers (start : Z)
    (reader_pages : list (option string)) :
  map fst (map (fun '(i, text) => (i + 1, strip (or_else text "")))
               (enumerate start reader_pages))
  = map (fun k => start + Z.of_nat k + 1) (seq 0 (length reader_pages)).
Proof.
  revert start. induction reader_pages as [|t rest IH]; intros start; simpl.
  - reflexivity.
  - rewrite IH. f_equal; [lia|].
    rewrite <- seq_shift, map_map. apply map_ext. intros k. lia.
Qed.

(** X20: [extract_with_fallback] returns the pages of the second reader
    exactly when the texts of the first reader, once stripped, total fewer
    than 1000 characters, and the pages of the first reader otherwise; in
    both cases there is one entry per page of that reader, numbered 1, 2,
    3, ... in order, pages without text included. *)
Theorem extract_with_fallback_pages (pdf : Pdf) :
  let chosen :=
    if sum (map (fun page => len (snd page)) (extract_text_pypdf pdf))
       <? 1000
    then pdfplumber_pages pdf else pypdf_pages pdf in
  extract_with_fallback pdf = extract_text chosen
  /\ length (extract_with_fallback pdf) = length chosen
  /\ map fst (extract_with_fallback pdf)
     = map (fun k => Z.of_nat k + 1) (seq 0 (length chosen)).
Proof.
  simpl. unfold extract_with_fallback.
  replace (map (fun '(_, text) => len text) (extract_text_pypdf pdf))
    with (map (fun page => len (snd page)) (extract_text_pypdf pdf))
    by (apply map_ext; now intros [? ?]).
  destruct (_ <? 1000); unfold extract_text_pdfplumber, extract_text_pypdf;
    (split; [reflexivity|]); unfold extract_text;
    (split; [rewrite <- (length_map fst), extract_text_numbers;
             now rewrite length_map, length_seq
            |rewrite extract_text_numbers; apply map_ext; intros; lia]).
Qed.

Lemma locate_first_occurrence_witness :
  let chunk_start := locate "foo bar bar" "bar" 1 in
  (1 <= chunk_start
   /\ substring (Z.to_nat chunk_start) (String.length "bar") "foo bar bar"
      = "bar"
   /\ forall p : nat,
        (Z.to_nat 1 <= p < Z.to_nat chunk_start)%nat ->
        substring p (String.length "bar") "foo bar bar" <> "bar")
  \/ (chunk_start = 1
      /\ forall p : nat,
           (Z.to_nat 1 <= p)%nat ->
           substring p (String.length "bar") "foo bar bar" <> "bar").
Proof.
  apply (locate_first_occurrence "foo bar bar" "bar" 1);
    [discriminate|lia].
Defined.

Lemma blank_document_pages_witness :
  fst (combine_pages (extract_with_fallback blank_pdf)) = ""
  /\ snd (combine_pages (extract_with_fallback blank_pdf)) = []
  /\ Forall (fun c => page_numbers c = [1])
            (chunk_document paragraph_splitter small_processor blank_pdf).
Proof.
  apply (blank_document_pages paragraph_splitter small_processor blank_pdf);
    repeat constructor.
Defined.

End PdfProcessorExtra.

(** ** search_client.py, further *)

Module SearchClientExtra.

Import SearchClient Statements Examples Reading.

Lemma nth_error_combine {A B} (l : list A) (l' : list B) (k : nat)
    (a : A) (b : B) :
  nth_error (combine l l') k = Some (a, b) ->
  nth_error l k = Some a /\ nth_error l' k = Some b.
Proof.
  revert l' k. induction l as [|x l IH]; intros [|y l'] k H;
    try (destruct k; discriminate).
  destruct k as [|k]; simpl in *.
  - injection H as <- <-. now split.
  - now apply IH.
Qed.

(** X14: [index_chunks] pairs chunks and embeddings by position and stops
    at the shorter of the two lists: the document at a position carries
    the identifier, content, pages and index of the chunk at that
    position, the embedding at that position, the document name and the
    one timestamp of the run; chunks beyond the last embedding get no
    document. *)
Theorem build_documents_by_position (chunks : list DocumentChunk)
    (embeddings : list embedding) (document_name timestamp : string) :
  let documents :=
    build_documents chunks embeddings document_name timestamp in
  length documents = Nat.min (length chunks) (length embeddings)
  /\ forall (k : nat) d,
       nth_error documents k = Some d ->
       exists c e,
         nth_error chunks k = Some c
         /\ nth_error embeddings k = Some e
         /\ doc_chunk_id d = chunk_id c
         /\ doc_content d = content c
         /\ doc_content_vector d = e
         /\ doc_page_numbers d = page_numbers c
         /\ doc_chunk_index d = chunk_index c
         /\ doc_document_name d = document_name
         /\ doc_indexed_at d = timestamp.
Proof.
  simpl. unfold build_documents. split.
  - now rewrite length_map, length_combine.
  - intros k d Hk. rewrite nth_error_map in Hk.
    destruct (nth_error (combine chunks embeddings) k) as [[c e]|] eqn:Hce;
      [|discriminate].
    injection Hk as <-. apply nth_error_combine in Hce.
    destruct Hce as [Hc He]. exists c, e. simpl. repeat split; auto.
Qed.

Section Service.

Variable svc : Services.

(** X15: the uploads [index_chunks] makes, and no others, carry the
    documents in order, in batches that are non-empty and hold at most 100
    documents; the batches uploaded are a prefix of the documents.  It
    stops at the first upload that fails: every upload followed by another
    was accepted; when it returns, the batches are all the documents and
    every upload was accepted; when it raises, the last batch sent is the
    one whose upload failed, with the exception [index_chunks] raises, and
    the documents after that batch are not sent. *)
Theorem index_chunks_uploads (chunks : list DocumentChunk)
    (embeddings : list embedding) (document_name : string)
    (tr : list event) :
  exists batches rest,
    snd (index_chunks svc chunks embeddings document_name tr)
    = tr ++ map UploadDocuments batches
    /\ Forall (fun batch =>
                 (1 <= length batch)%nat /\ len_list batch <= 100)
              batches
    /\ build_documents chunks embeddings document_name
         (utcnow_isoformat svc tr)
       = concat batches ++ rest
    /\ (forall earlier batch later,
          batches = earlier ++ batch :: later -> later <> [] ->
          upload_documents svc (tr ++ map UploadDocuments earlier) batch
          = Ok tt)
    /\ (forall done,
          fst (index_chunks svc chunks embeddings document_name tr)
          = Ok done ->
          rest = []
          /\ forall earlier batch later,
               batches = earlier ++ batch :: later ->
               upload_documents svc (tr ++ map UploadDocuments earlier)
                 batch
               = Ok tt)
    /\ (forall e,
          fst (index_chunks svc chunks embeddings document_name tr)
          = Raise e ->
          exists earlier last,
            batches = earlier ++ [last]
            /\ upload_documents svc (tr ++ map UploadDocuments earlier)
                 last
               = Raise e).
Proof.
  unfold index_chunks.
  apply (batched_loop_calls
           (build_documents chunks embeddings document_name
              (utcnow_isoformat svc tr))
           100 UploadDocuments
           (fun batch tr0 => upload_documents svc tr0 batch = Ok tt)
           (fun batch tr0 e => upload_documents svc tr0 batch = Raise e));
    [lia| | |]; intros i acc tr0; unfold call; simpl;
    try reflexivity; intros r Heq.
  - rewrite Heq. now destruct r.
  - exact Heq.
Qed.

(** When every upload succeeds, so does the loop. *)
Lemma uploads_succeed (documents : list IndexDocument) (indices : list Z)
    (tr : list event) :
  (forall tr' batch, upload_documents svc tr' batch = Ok tt) ->
  fst (for_each indices
         (fun i (_ : unit) =>
            call (UploadDocuments (slice documents i (i + 100)))
                 (fun tr' =>
                    upload_documents svc tr'
                      (slice documents i (i + 100))))
         tt tr)
  = Ok tt.
Proof.
  intros Hok. revert tr. induction indices as [|i indices IH]; intros tr;
    simpl; [reflexivity|].
  unfold bind, call. rewrite Hok. apply IH.
Qed.

(** With a store that accepts every upload, [index_chunks] returns after
    uploading batches that, put end to end, are the documents. *)
Lemma index_chunks_upload_trace (chunks : list DocumentChunk)
    (embeddings : list embedding) (document_name : string)
    (tr : list event) :
  (forall tr' batch, upload_documents svc tr' batch = Ok tt) ->
  exists batches,
    index_chunks svc chunks embeddings document_name tr
    = (Ok tt, tr ++ map UploadDocuments batches)
    /\ concat batches
       = build_documents chunks embeddings document_name
           (utcnow_isoformat svc tr).
Proof.
  intros Hok.
  pose proof (uploads_succeed
                (build_documents chunks embeddings document_name
                   (utcnow_isoformat svc tr))
                (range 0 (len_list
                            (build_documents chunks embeddings document_name
                               (utcnow_isoformat svc tr))) 100)
                tr Hok) as Hfst.
  destruct (batched_loop_trace
              (build_documents chunks embeddings document_name
                 (utcnow_isoformat svc tr))
              100 UploadDocuments
              (fun i (_ : unit) =>
                 call (UploadDocuments
                         (slice (build_documents chunks embeddings
                                   document_name (utcnow_isoformat svc tr))
                                i (i + 100)))
                      (fun tr' =>
                         upload_documents svc tr'
                           (slice (build_documents chunks embeddings
                                     document_name
                                     (utcnow_isoformat svc tr))
                                  i (i + 100))))
              ltac:(lia) ltac:(intros; reflexivity) tt tr)
    as (batches & rest & Hsnd & _ & Hconcat & Hdone & _).
  exists batches. unfold index_chunks. cbv zeta.
  rewrite (Hdone tt Hfst), app_nil_r in Hconcat.
  split; [|now symmetry].
  destruct (for_each _ _ tt tr) as [r tr'] eqn:Hrun.
  simpl in Hfst, Hsnd. now subst.
Qed.

End Service.

End SearchClientExtra.

(** ** rag_pipeline.py, further *)

Module RagPipelineExtra.

Import RagPipeline Statements Examples Reading.

Lemma append_empty_r (s : string) : s +:+ "" = s.
Proof.
  induction s as [|c s IH]; [reflexivity|].
  change (String c s +:+ "") with (String c (s +:+ "")). now f_equal.
Qed.

Lemma append_assoc (s1 s2 s3 : string) :
  (s1 +:+ s2) +:+ s3 = s1 +:+ (s2 +:+ s3).
Proof.
  induction s1 as [|c s1 IH]; [reflexivity|].
  change (String c ((s1 +:+ s2) +:+ s3) = String c (s1 +:+ (s2 +:+ s3))).
  now f_equal.
Qed.

Lemma join_middle (sep : string) (before after : list string)
    (part : string) :
  exists pre post,
    join sep (before ++ part :: after) = pre +:+ part +:+ post.
Proof.
  induction before as [|b before IH].
  - exists "". destruct after as [|a after]; simpl.
    + exists "". now rewrite append_empty_r.
    + eexists. reflexivity.
  - destruct IH as (pre & post & IH).
    exists (b +:+ sep +:+ pre), post.
    change ((b :: before) ++ part :: after)
      with (b :: (before ++ part :: after)).
    destruct (before ++ part :: after) as [|x rest] eqn:Hrest.
    + destruct before; discriminate.
    + change (join sep (b :: x :: rest))
        with (b +:+ sep +:+ join sep (x :: rest)).
      rewrite IH. now rewrite !append_assoc.
Qed.

Lemma enumerate_app {A} (start : Z) (l1 l2 : list A) :
  enumerate start (l1 ++ l2)
  = enumerate start l1 ++ enumerate (start + len_list l1) l2.
Proof.
  revert start. induction l1 as [|x l1 IH]; intros start; simpl.
  - f_equal. unfold len_list. simpl. lia.
  - rewrite IH. do 3 f_equal. unfold len_list. simpl length. lia.
Qed.

(** X16: the context holds, for a match at any rank, the block built for
    it, labelled with its rank counted from 1. *)
Theorem format_context_has_block (before after : list Match) (chunk : Match) :
  exists pre post,
    format_context (before ++ chunk :: after)
    = pre +:+ context_part (len_list before + 1, chunk) +:+ post.
Proof.
  unfold format_context.
  rewrite enumerate_app, map_app. simpl.
  replace (1 + len_list before) with (len_list before + 1) by lia.
  apply join_middle.
Qed.

Section Pipeline.

Variable svc : Services.
Variable embedding_deployment : string.
Variable chat_deployment : string.
Variable top_k : Z.

Local Abbreviation retrieve := (retrieve svc embedding_deployment top_k).
Local Abbreviation query :=
  (query svc embedding_deployment chat_deployment top_k).

(** X17: when the query is embedded, the search returns at least one
    result and the generation service answers, [query] makes one search
    and one generation call and returns the generated text, or the empty
    string when the service gave none, one source per search result in
    rank order with its pages, section and score, and the confidence of
    the first result's score. *)
Theorem query_with_matches (user_query : string) (tr tr0 : list event)
    (query_embedding : embedding) (first : SearchResult)
    (rest : list SearchResult) (message_content : option string) :
  let matches := map SearchClient.make_match (first :: rest) in
  let system := SYSTEM_PROMPT_format (format_context matches) in
  Embeddings.get_embedding svc embedding_deployment user_query tr
  = (Ok query_embedding, tr0) ->
  search_documents svc tr0 user_query query_embedding top_k
  = Ok (first :: rest) ->
  chat_completions_create svc
    (tr0 ++ [Search user_query query_embedding top_k])
    chat_deployment system user_query 0.3%float 1000
  = Ok message_content ->
  query user_query tr
  = (Ok {| answer := or_else message_content "";
           sources := map source_of (first :: rest);
           confidence := confidence_of (r_search_score first) |},
     (tr0 ++ [Search user_query query_embedding top_k])
     ++ [ChatCompletion chat_deployment system user_query 0.3%float 1000]).
Proof.
  intros matches system Hemb Hsearch Hchat.
  pose proof (RagPipelineProofs.retrieve_after_embedding svc
                embedding_deployment top_k _ _ _ _ Hemb) as Hret.
  rewrite Hsearch in Hret.
  unfold RagPipeline.query. unfold bind at 1. rewrite Hret.
  unfold bind. cbn [map].
  rewrite RagPipelineProofs.generate_once.
  fold (map SearchClient.make_match rest).
  change (SearchClient.make_match first
          :: map SearchClient.make_match rest) with matches.
  fold system. rewrite Hchat. cbn [map]. do 3 f_equal.
  rewrite map_map. reflexivity.
Qed.

(** X18: when retrieval raises, by the embedding calls or by the search,
    [query] raises the same exception and the generation service is not
    called. *)
Theorem query_retrieval_failure (user_query : string)
    (tr tr1 : list event) (e : exn) :
  retrieve user_query tr = (Raise e, tr1) ->
  query user_query tr = (Raise e, tr1)
  /\ exists evs, tr1 = tr ++ evs /\ Forall not_chat evs.
Proof.
  intros Hret. split.
  - unfold RagPipeline.query, bind. now rewrite Hret.
  - destruct (RagPipelineProofs.retrieve_no_chat svc embedding_deployment
                top_k user_query tr) as (evs & Hsnd & Hall).
    rewrite Hret in Hsnd. simpl in Hsnd. eauto.
Qed.

End Pipeline.

Lemma query_with_matches_witness :
  RagPipeline.query (scoring_services 0.05) "ada" "gpt" 5 "reset" []
  = (Ok {| answer := or_else
                       (Some "According to page 12, hold the reset button.")
                       "";
           sources :=
             map source_of
                 [ {| r_chunk_id := "chunk_0003";
                      r_content := "Hold the reset button for ten seconds.";
                      r_page_numbers := [12; 13];
                      r_section_title := Some "";
                      r_search_score := 0.05 |} ];
           confidence := confidence_of 0.05 |},
     ([EmbeddingsCreate "ada" ["reset"]]
      ++ [Search "reset" (unit_embedding "reset") 5])
     ++ [ChatCompletion "gpt"
           (SYSTEM_PROMPT_format (format_context [top_match 0.05]))
           "reset" 0.3%float 1000]).
Proof.
  apply (query_with_matches (scoring_services 0.05) "ada" "gpt" 5 "reset"
           [] [EmbeddingsCreate "ada" ["reset"]] (unit_embedding "reset"));
    reflexivity.
Defined.

Lemma query_retrieval_failure_witness :
  RagPipeline.query (flaky_services 3) "ada" "gpt" 5 "reset" []
  = (Raise (RetryError (ServiceError "429 Too Many Requests")),
     [EmbeddingsCreate "ada" ["reset"]; Sleep 2;
      EmbeddingsCreate "ada" ["reset"]; Sleep 2;
      EmbeddingsCreate "ada" ["reset"]])
  /\ exists evs,
       [EmbeddingsCreate "ada" ["reset"]; Sleep 2;
        EmbeddingsCreate "ada" ["reset"]; Sleep 2;
        EmbeddingsCreate "ada" ["reset"]] = [] ++ evs
       /\ Forall not_chat evs.
Proof.
  apply (query_retrieval_failure (flaky_services 3) "ada" "gpt" 5 "reset"
           []).
  reflexivity.
Defined.

End RagPipelineExtra.

(** ** scripts/index_document.py *)

Module IndexDocumentExtra.

Import IndexDocument Statements Examples Reading.

Lemma Forall2_map_left {A B C} (R : B -> C -> Prop) (f : A -> B)
    (l : list A) (l' : list C) :
  Forall2 R (map f l) l' -> Forall2 (fun a c => R (f a) c) l l'.
Proof.
  revert l'. induction l as [|a l IH]; intros l' H; inversion H; subst;
    constructor; auto.
Qed.

Lemma build_documents_aligned (R : DocumentChunk -> embedding -> Prop)
    (chunks : list DocumentChunk) (embeddings : list embedding)
    (document_name timestamp : string) :
  Forall2 R chunks embeddings ->
  Forall2 (fun c d =>
             doc_chunk_id d = chunk_id c
             /\ doc_content d = content c
             /\ R c (doc_content_vector d))
          chunks
          (SearchClient.build_documents chunks embeddings document_name
             timestamp).
Proof.
  unfold SearchClient.build_documents.
  induction 1; simpl; constructor; auto.
Qed.

Section Steps.

Variable svc : Services.
Variable deployment : string.
Variable split_text : Z -> Z -> list string -> string -> list string.
Variable embeds : string -> embedding -> Prop.

Hypothesis provider_order_preserving :
  forall tr input,
    exists data,
      embeddings_create svc tr deployment input = Ok data
      /\ Forall2 embeds input data.

Hypothesis uploads_accepted :
  forall tr batch, upload_documents svc tr batch = Ok tt.

(** X19: with a provider that answers every call with one embedding per
    input in input order and a store that accepts every upload, the
    indexing steps return the chunks, and the documents they upload, put
    end to end, are one per chunk in chunk order, each with the chunk's
    identifier and content and with an embedding of that content. *)
Theorem index_steps_aligned (pdf : PdfProcessor.Pdf) (tr : list event) :
  let chunks := PdfProcessor.chunk_document split_text processor pdf in
  exists inputs batches,
    index_steps svc deployment split_text pdf tr
    = (Ok chunks,
       (tr ++ map (create_event deployment) inputs)
       ++ map UploadDocuments batches)
    /\ concat inputs = map content chunks
    /\ Forall2 (fun c d =>
                  doc_chunk_id d = chunk_id c
                  /\ doc_content d = content c
                  /\ embeds (content c) (doc_content_vector d))
               chunks (concat batches).
Proof.
  intros chunks. unfold index_steps. fold chunks.
  (* the embedding step *)
  assert (Hpos : 0 < 16) by lia.
  destruct (EmbeddingsProofs.batch_loop svc deployment embeds
              provider_order_preserving (map content chunks) 16 Hpos
              (Z.to_nat ((len_list (map content chunks) + 16 - 1) / 16))
              0 [] tr) as (data & tr1 & Hrun & Hall).
  simpl skipn in Hall.
  rewrite firstn_all2 in Hall.
  2:{ pose proof (range_steps_cover (len_list (map content chunks)) 16
                    ltac:(unfold len_list; lia) Hpos) as Hc.
      assert (Hq : 0 <= (len_list (map content chunks) + 16 - 1) / 16)
        by (apply Z.div_pos; unfold len_list; lia).
      unfold len_list in *.
      rewrite <- Z2Nat.inj_mul by lia.
      apply Nat2Z.inj_le. rewrite Z2Nat.id by lia. exact Hc. }
  destruct (batched_loop_trace (map content chunks) 16
              (create_event deployment)
              (fun i all_embeddings =>
                 let batch := slice (map content chunks) i (i + 16) in
                 let* batch_embeddings :=
                   Embeddings.create svc deployment batch in
                 ret (all_embeddings ++ batch_embeddings))
              Hpos
              ltac:(intros i acc tr0;
                    unfold bind, Embeddings.create, call;
                    now destruct (embeddings_create svc tr0 deployment
                                    (slice (map content chunks) i (i + 16))))
              [] tr)
    as (inputs & rest_in & Htr1 & _ & Hconcat & Hdone & _).
  rewrite range_positive_step in Htr1, Hdone by exact Hpos.
  assert (Hrest : rest_in = []).
  { apply (Hdone data). exact (f_equal fst Hrun). }
  assert (Htrace : tr1 = tr ++ map (create_event deployment) inputs).
  { rewrite <- Htr1. exact (eq_sym (f_equal snd Hrun)). }
  assert (Hembed : Embeddings.get_embeddings_batch svc deployment
                     (map content chunks) 16 tr
                   = (Ok data, tr ++ map (create_event deployment) inputs)).
  { unfold Embeddings.get_embeddings_batch.
    change (16 =? 0) with false.
    rewrite range_positive_step by exact Hpos.
    rewrite <- Htrace. exact Hrun. }
  subst rest_in. rewrite app_nil_r in Hconcat.
  (* the upload step *)
  destruct (SearchClientExtra.index_chunks_upload_trace svc chunks data
              DOCUMENT_NAME (tr ++ map (create_event deployment) inputs)
              uploads_accepted)
    as (batches & Hindex & Hdocs).
  exists inputs, batches.
  unfold bind at 1. rewrite Hembed.
  unfold bind. rewrite Hindex. unfold ret.
  split; [reflexivity|]. split; [now symmetry|].
  rewrite Hdocs.
  apply (build_documents_aligned (fun c e => embeds (content c) e)).
  now apply Forall2_map_left.
Qed.

End Steps.

Lemma index_steps_aligned_witness :
  let chunks :=
    PdfProcessor.chunk_document paragraph_splitter processor two_page_pdf in
  exists inputs batches,
    index_steps steady_services "ada" paragraph_splitter two_page_pdf []
    = (Ok chunks,
       ([] ++ map (create_event "ada") inputs)
       ++ map UploadDocuments batches)
    /\ concat inputs = map content chunks
    /\ Forall2 (fun c d =>
                  doc_chunk_id d = chunk_id c
                  /\ doc_content d = content c
                  /\ doc_content_vector d = unit_embedding (content c))
               chunks (concat batches).
Proof.
  apply (index_steps_aligned steady_services "ada" paragraph_splitter
           (fun text e => e = unit_embedding text)
           EmbeddingsProofs.steady_provider_order_preserving
           (fun tr batch => eq_refl) two_page_pdf []).
Defined.

End IndexDocumentExtra.

(** ** Validation comes first: scripts/index_document.py and app.py *)

Module EntryPointProofs.

Import Config Statements Reading Examples.

Lemma appends_ret {A} (a : A) : appends (ret a).
Proof. intros tr. exists []. simpl. now rewrite app_nil_r. Qed.

Lemma appends_raise {A} (e : exn) : appends (@raise A e).
Proof. intros tr. exists []. simpl. now rewrite app_nil_r. Qed.

Lemma appends_call {A} (ev : event) (answer_of : list event -> result A) :
  appends (call ev answer_of).
Proof. intros tr. now exists [ev]. Qed.

Lemma appends_bind {A B} (c : M A) (k : A -> M B) :
  appends c -> (forall a, appends (k a)) -> appends (bind c k).
Proof.
  intros Hc Hk tr. unfold bind.
  destruct (Hc tr) as [later Hlater].
  destruct (c tr) as [[a|e] tr1]; simpl in Hlater; subst tr1.
  - destruct (Hk a (tr ++ later)) as [later' Hlater'].
    exists (later ++ later'). now rewrite Hlater', app_assoc.
  - now exists later.
Qed.

Lemma appends_for_each {X St} (xs : list X) (body : X -> St -> M St) :
  (forall x acc, appends (body x acc)) ->
  forall acc, appends (for_each xs body acc).
Proof.
  intros Hbody. induction xs as [|x xs IH]; intros acc; simpl.
  - apply appends_ret.
  - apply appends_bind; [apply Hbody|exact IH].
Qed.

Section EntryPoints.

Variable svc : Services.
Variable split_text : Z -> Z -> list string -> string -> list string.

Lemma get_embeddings_batch_appends (deployment : string)
    (texts : list string) (batch_size : Z) :
  appends (Embeddings.get_embeddings_batch svc deployment texts batch_size).
Proof.
  unfold Embeddings.get_embeddings_batch.
  destruct (batch_size =? 0); [apply appends_raise|].
  apply appends_for_each. intros i acc.
  apply appends_bind; [apply appends_call|].
  intros data. apply appends_ret.
Qed.

Lemma index_chunks_appends (chunks : list DocumentChunk)
    (embeddings : list embedding) (document_name : string) :
  appends (SearchClient.index_chunks svc chunks embeddings document_name).
Proof.
  intros tr. unfold SearchClient.index_chunks.
  apply (appends_for_each
           (range 0
              (len_list
                 (SearchClient.build_documents chunks embeddings
                    document_name (utcnow_isoformat svc tr)))
              100)).
  intros i acc. apply appends_call.
Qed.

Lemma index_steps_appends (deployment : string) (pdf : PdfProcessor.Pdf) :
  appends (IndexDocument.index_steps svc deployment split_text pdf).
Proof.
  unfold IndexDocument.index_steps.
  apply appends_bind; [apply get_embeddings_batch_appends|].
  intros embeddings.
  apply appends_bind; [apply index_chunks_appends|].
  intros done. apply appends_ret.
Qed.

(** C9, amended: [validate_config] runs before any external service is
    contacted, in the indexing script and in the application: when it
    reports an error, [main] of the script exits with status 1 and
    [load_pipeline] returns [None], both without a call to any service or
    to the constructor of the pipeline; when it reports none, the first
    call of the script, the creation of the index, comes after it, and
    [load_pipeline] makes the calls of the constructor.  It returns one
    entry for every required variable that is absent or set to the empty
    string, all of them in a single list, and it returns the empty list
    exactly when every required variable is set to a non-empty value. *)
Theorem validate_config_runs_first (RAGPipeline : Type)
    (RAGPipeline_init : M RAGPipeline) (environ : gmap string string)
    (tr : list event) :
  (validate_config environ <> [] ->
   (forall file,
      IndexDocument.main svc split_text environ file tr
      = (Raise (SystemExit 1), tr))
   /\ App.load_pipeline RAGPipeline RAGPipeline_init environ tr
      = (Ok None, tr))
  /\ (validate_config environ = [] ->
      (forall pdf_path,
         exists later,
           snd (IndexDocument.main svc split_text environ (Some pdf_path)
                  tr)
           = tr
             ++ CreateOrUpdateIndex (index_name (get_search_config environ))
                :: later)
      /\ snd (App.load_pipeline RAGPipeline RAGPipeline_init environ tr)
         = snd (RAGPipeline_init tr))
  /\ validate_config environ
     = map message_of (List.filter (unusable environ) required_vars)
  /\ (validate_config environ = []
      <-> Forall (fun v => is_nonempty environ (fst v)) required_vars).
Proof.
  split; [|split; [|exact (ConfigProofs.validate_config_reports_all environ)]].
  - intros Herrors. unfold IndexDocument.main, App.load_pipeline.
    destruct (validate_config environ) as [|error errors];
      [contradiction|].
    split; [intros file|]; reflexivity.
  - intros Hnone. unfold IndexDocument.main, App.load_pipeline.
    rewrite Hnone. split.
    + intros pdf_path. unfold bind at 1.
      unfold SearchClient.create_or_update_index, call.
      destruct (index_create_or_update svc tr
                  (index_name (get_search_config environ))) as [done|e].
      * destruct (appends_bind
                    (IndexDocument.index_steps svc
                       (embedding_deployment (get_openai_config environ))
                       split_text pdf_path)
                    (fun _ => ret tt)
                    (index_steps_appends _ pdf_path)
                    (fun _ => appends_ret tt)
                    (tr ++ [CreateOrUpdateIndex
                              (index_name (get_search_config environ))]))
          as [later Hlater].
        exists later. rewrite Hlater. now rewrite <- app_assoc.
      * now exists [].
    + destruct (RAGPipeline_init tr) as [[pipeline|e] tr1];
        [reflexivity|].
      now destruct (App.is_Exception e).
Qed.

End EntryPoints.

Lemma validate_config_runs_first_witness :
  IndexDocument.main steady_services paragraph_splitter blank_key_environ
    (Some two_page_pdf) []
  = (Raise (SystemExit 1), [])
  /\ exists later,
       snd (IndexDocument.main steady_services paragraph_splitter
              complete_environ (Some two_page_pdf) [])
       = [] ++ CreateOrUpdateIndex "tmobile-gateway-docs" :: later.
Proof.
  split.
  - apply (proj1 (validate_config_runs_first steady_services
                    paragraph_splitter unit (ret tt) blank_key_environ [])).
    vm_compute. discriminate.
  - apply (proj1 (proj2 (validate_config_runs_first steady_services
                           paragraph_splitter unit (ret tt)
                           complete_environ []))).
    vm_compute. reflexivity.
Defined.

End EntryPointProofs.
